(** * County-line detection of the NY QSO Party analysis scripts

    A shallow embedding of the detector that is written out twice in the
    repository, as [CountyLineDetector] in [scripts/_county_line_analyzer.py]
    and as [CountyLinePeriodGenerator] in [scripts/county_line_periods.py],
    followed by the properties of it that the specification states.

    Python integers are [Z], Python strings are [string] (compared byte by
    byte, which for UTF-8 text is the order of code points), a [datetime] is an
    instant on the integer time line, and a Python list is a [list] read
    through [Py.getitem] and [Py.slice], which keep Python's negative indices
    and its [IndexError]. *)

From Stdlib Require Import ZArith List String Ascii Bool Lia Sorted.
From Stdlib Require Import DecimalString.
Import ListNotations.
Local Open Scope string_scope.
Local Open Scope list_scope.
Local Open Scope Z_scope.

(** ** The fragment of the Python runtime that the detector uses *)

Module Py.

Inductive exn : Set :=
| IndexError.

Inductive result (A : Type) : Type :=
| Done (a : A)
| Raise (e : exn).

Arguments Done {A} a.
Arguments Raise {A} e.

Definition bind {A B : Type} (m : result A) (k : A -> result B) : result B :=
  match m with
  | Done a => k a
  | Raise e => Raise e
  end.

(** [len(l)] *)
Definition len {A : Type} (l : list A) : Z := Z.of_nat (List.length l).

(** [l[i]]: a negative index counts from the end, an index outside the list
    raises. *)
Definition getitem {A : Type} (l : list A) (i : Z) : result A :=
  let j := if i <? 0 then i + len l else i in
  if j <? 0 then Raise IndexError
  else match nth_error l (Z.to_nat j) with
       | Some x => Done x
       | None => Raise IndexError
       end.

(** How a slice bound is brought into [0 .. len(l)]. *)
Definition clamp {A : Type} (l : list A) (k : Z) : Z :=
  let k' := if k <? 0 then k + len l else k in
  Z.max 0 (Z.min (len l) k').

(** [l[lo:hi]] *)
Definition slice {A : Type} (l : list A) (lo hi : Z) : list A :=
  let lo' := clamp l lo in
  let hi' := clamp l hi in
  firstn (Z.to_nat (hi' - lo')) (skipn (Z.to_nat lo') l).

(** [sorted(l)] on strings.  Python's sort is stable and compares with [<]
    only: an element goes before the first one that is not smaller than
    it. *)
Fixpoint insert_sorted (x : string) (l : list string) : list string :=
  match l with
  | [] => [x]
  | y :: l' => if String.ltb y x then y :: insert_sorted x l' else x :: y :: l'
  end.

Definition sorted (l : list string) : list string :=
  fold_right insert_sorted [] l.

(** A [dict] with string keys, in insertion order.  [d[k] = v] replaces the
    value of a key that is there and appends a key that is not. *)
Fixpoint dict_set {V : Type} (d : list (string * V)) (k : string) (v : V)
  : list (string * V) :=
  match d with
  | [] => [(k, v)]
  | (k', v') :: d' =>
      if String.eqb k' k then (k', v) :: d' else (k', v') :: dict_set d' k v
  end.

(** [d.get(k)] *)
Fixpoint dict_get {V : Type} (d : list (string * V)) (k : string) : option V :=
  match d with
  | [] => None
  | (k', v') :: d' => if String.eqb k' k then Some v' else dict_get d' k
  end.

(** The truth value of a list: it is not empty. *)
Definition truthy {A : Type} (l : list A) : bool :=
  match l with
  | [] => false
  | _ :: _ => true
  end.

End Py.

Import Py.

Notation "x <- m ;; k" := (Py.bind m (fun x => k))
  (at level 61, m at next level, right associativity).
Notation "' pat <- m ;; k" := (Py.bind m (fun x => match x with pat => k end))
  (at level 61, pat pattern, m at next level, right associativity).

(** ** What both scripts share *)

(** The two [QSORecord] dataclasses differ in their fields; the detector reads
    only [timestamp] and [tx_county] of a record. *)
Class QSOLike (R : Type) : Type := {
  timestamp : R -> Z;
  tx_county : R -> string
}.

(** The attributes that [__init__] stores in [self], the same in both
    classes. *)
Record Settings : Set := {
  min_alternations : Z;
  max_consecutive_same : Z
}.

(** [__init__]'s defaults. *)
Definition default_settings : Settings :=
  {| min_alternations := 3; max_consecutive_same := 2 |}.

Section Tracing.

Context {R : Type} `{QSOLike R}.

(** [current in (county_a, county_b)] *)
Definition in_pair (current county_a county_b : string) : bool :=
  String.eqb current county_a || String.eqb current county_b.

(** The body of the [for i in range(len(qsos) - 2)] loop of
    [_find_alternating_pair], [n] iterations being left. *)
Fixpoint pair_loop (qsos : list R) (n : nat) (i : Z)
  : result (option (string * string)) :=
  match n with
  | O => Done None
  | S n' =>
      qa <- getitem qsos i ;;
      qb <- getitem qsos (i + 1) ;;
      let a := tx_county qa in
      let b := tx_county qb in
      if String.eqb a b then pair_loop qsos n' (i + 1)
      else if i + 2 <? len qsos then
             qc <- getitem qsos (i + 2) ;;
             if String.eqb (tx_county qc) a then Done (Some (a, b))
             else pair_loop qsos n' (i + 1)
           else pair_loop qsos n' (i + 1)
  end.

Definition _find_alternating_pair (qsos : list R)
  : result (option (string * string)) :=
  pair_loop qsos (Z.to_nat (len qsos - 2)) 0.

(** The body of the [for i in range(start_idx, len(qsos))] loop of
    [_trace_pattern], [n] iterations being left; a [break] is the return
    that follows the loop. *)
Fixpoint trace_loop (self : Settings) (qsos : list R)
         (county_a county_b : string) (n : nat) (i : Z)
         (expected : string) (alternations consecutive_same last_valid_idx : Z)
  : result (Z * Z) :=
  match n with
  | O => Done (last_valid_idx, alternations)
  | S n' =>
      q <- getitem qsos i ;;
      let current := tx_county q in
      if negb (in_pair current county_a county_b) then
        Done (last_valid_idx, alternations)
      else if String.eqb current expected then
        trace_loop self qsos county_a county_b n' (i + 1)
                   (if String.eqb expected county_a then county_b else county_a)
                   (alternations + 1) 0 i
      else
        let consecutive_same := consecutive_same + 1 in
        if consecutive_same >? max_consecutive_same self then
          Done (i - consecutive_same, alternations)
        else
          trace_loop self qsos county_a county_b n' (i + 1)
                     expected alternations consecutive_same i
  end.

Definition _trace_pattern (self : Settings) (qsos : list R) (start_idx : Z)
           (county_a county_b : string) : result (Z * Z) :=
  q <- getitem qsos start_idx ;;
  let expected := tx_county q in
  if negb (in_pair expected county_a county_b) then Done (start_idx, 0)
  else trace_loop self qsos county_a county_b
                  (Z.to_nat (len qsos - start_idx)) start_idx
                  expected 0 0 start_idx.

(** The slice that [_detect_period_from] hands to
    [_find_alternating_pair]. *)
Definition scan_slice (qsos : list R) (start_idx : Z) : list R :=
  let scan_window := Z.min (start_idx + 10) (len qsos) in
  slice qsos start_idx scan_window.

End Tracing.

(** The [while] loop of [find_county_line_periods].  The loop has no bound of
    its own, so the embedding counts its iterations down from [fuel] and
    answers [None] when they are used up. *)
Section Driving.

Context {P : Type} (end_idx : P -> Z)
        (detect : Z -> result (option P)) (bound : Z).

Fixpoint while_loop (fuel : nat) (i : Z) (periods : list P)
  : option (result (list P)) :=
  if i <? bound then
    match fuel with
    | O => None
    | S fuel' =>
        match detect i with
        | Raise e => Some (Raise e)
        | Done (Some period) =>
            while_loop fuel' (end_idx period + 1) (periods ++ [period])
        | Done None => while_loop fuel' (i + 1) periods
        end
    end
  else Some (Done periods).

End Driving.

(** ** [scripts/_county_line_analyzer.py] *)

Module CountyLineDetector.

Record QSORecord : Set := {
  qso_timestamp : Z;
  freq : string;
  mode : string;
  tx_call : string;
  qso_tx_county : string;
  rx_call : string;
  rx_county : string;
  qso_id : Z
}.

#[export] Instance QSORecord_QSOLike : QSOLike QSORecord :=
  {| timestamp := qso_timestamp; tx_county := qso_tx_county |}.

Record CountyLinePeriod : Set := {
  start_time : Z;
  end_time : Z;
  county_a : string;
  county_b : string;
  start_idx : Z;
  end_idx : Z;
  qso_count : Z;
  alternations : Z
}.

Definition _detect_period_from (self : Settings) (qsos : list QSORecord)
           (start : Z) : result (option CountyLinePeriod) :=
  if start + min_alternations self >=? len qsos then Done None
  else
    county_pair <- _find_alternating_pair (scan_slice qsos start) ;;
    match county_pair with
    | None => Done None
    | Some (a, b) =>
        '(e, alts) <- _trace_pattern self qsos start a b ;;
        if alts >=? min_alternations self then
          qs <- getitem qsos start ;;
          qe <- getitem qsos e ;;
          Done (Some {| start_time := timestamp qs;
                        end_time := timestamp qe;
                        county_a := a;
                        county_b := b;
                        start_idx := start;
                        end_idx := e;
                        qso_count := e - start + 1;
                        alternations := alts |})
        else Done None
    end.

Definition find_county_line_periods_fuel (fuel : nat) (self : Settings)
           (qsos : list QSORecord) : option (result (list CountyLinePeriod)) :=
  if len qsos <? min_alternations self + 1 then Some (Done [])
  else while_loop end_idx (_detect_period_from self qsos)
                  (len qsos - min_alternations self) fuel 0 [].

(** The loop's cursor starts at 0 and stops at
    [len(qsos) - min_alternations]; that many iterations are granted. *)
Definition find_county_line_periods (self : Settings) (qsos : list QSORecord)
  : option (result (list CountyLinePeriod)) :=
  find_county_line_periods_fuel
    (Z.to_nat (len qsos - min_alternations self)) self qsos.

End CountyLineDetector.

(** ** [scripts/county_line_periods.py] *)

Module CountyLinePeriodGenerator.

Record QSORecord : Set := {
  qso_timestamp : Z;
  qso_tx_county : string;
  qso_id : Z
}.

#[export] Instance QSORecord_QSOLike : QSOLike QSORecord :=
  {| timestamp := qso_timestamp; tx_county := qso_tx_county |}.

Record CountyLinePeriod : Set := {
  start_time : string;
  end_time : string;
  counties : list string;
  qso_count : Z;
  alternations : Z;
  start_idx : Z;
  end_idx : Z
}.

Section WithIsoformat.

(** [datetime.isoformat], of the Python library. *)
Variable isoformat : Z -> string.

Definition _detect_period_from (self : Settings) (qsos : list QSORecord)
           (start : Z) : result (option CountyLinePeriod) :=
  if start + min_alternations self >=? len qsos then Done None
  else
    county_pair <- _find_alternating_pair (scan_slice qsos start) ;;
    match county_pair with
    | None => Done None
    | Some (a, b) =>
        '(e, alts) <- _trace_pattern self qsos start a b ;;
        if alts >=? min_alternations self then
          qs <- getitem qsos start ;;
          qe <- getitem qsos e ;;
          Done (Some {| start_time := isoformat (timestamp qs);
                        end_time := isoformat (timestamp qe);
                        counties := sorted [a; b];
                        qso_count := e - start + 1;
                        alternations := alts;
                        start_idx := start;
                        end_idx := e |})
        else Done None
    end.

Definition find_county_line_periods_fuel (fuel : nat) (self : Settings)
           (qsos : list QSORecord)
  : option (result (list CountyLinePeriod)) :=
  if len qsos <? min_alternations self + 1 then Some (Done [])
  else while_loop end_idx (_detect_period_from self qsos)
                  (len qsos - min_alternations self) fuel 0 [].

Definition find_county_line_periods (self : Settings)
           (qsos : list QSORecord)
  : option (result (list CountyLinePeriod)) :=
  find_county_line_periods_fuel
    (Z.to_nat (len qsos - min_alternations self)) self qsos.

(** [load_mobile_qsos] reads the rows of a station from the SQLite file at
    [db_path]; here it is the content of that database. *)
Variable load_mobile_qsos : string -> string -> list QSORecord.

(** The [for callsign in mobile_stations] loop of
    [generate_periods_table]. *)
Fixpoint periods_table_loop (self : Settings) (db_path : string)
         (mobile_stations : list string)
         (periods_table : list (string * list CountyLinePeriod))
  : option (result (list (string * list CountyLinePeriod))) :=
  match mobile_stations with
  | [] => Some (Done periods_table)
  | callsign :: rest =>
      let qsos := load_mobile_qsos db_path callsign in
      match find_county_line_periods self qsos with
      | None => None
      | Some (Raise e) => Some (Raise e)
      | Some (Done periods) =>
          periods_table_loop
            self db_path rest
            (if truthy periods then dict_set periods_table callsign periods
             else periods_table)
      end
  end.

Definition generate_periods_table (self : Settings) (db_path : string)
           (mobile_stations : list string)
  : option (result (list (string * list CountyLinePeriod))) :=
  periods_table_loop self db_path mobile_stations [].

End WithIsoformat.

End CountyLinePeriodGenerator.

(** ** Logs used as examples *)

Module Examples.

Import CountyLineDetector.

(** A record of county [c] logged at instant [t]. *)
Definition record_at (c : string) (t : Z) : QSORecord :=
  {| qso_timestamp := t; freq := "14250"; mode := "PH";
     tx_call := "W2XYZ"; qso_tx_county := c; rx_call := "K2ABC";
     rx_county := "ERI"; qso_id := t |}.

(** A log from its [tx_county] column, the first record at [t], the
    following ones [step] seconds apart. *)
Fixpoint log_stepping (t step : Z) (cs : list string) : list QSORecord :=
  match cs with
  | [] => []
  | c :: cs' => record_at c t :: log_stepping (t + step) step cs'
  end.

(** One record a minute. *)
Definition log (cs : list string) : list QSORecord := log_stepping 0 60 cs.

(** The period over records [s .. e] of a [log], as [_detect_period_from]
    builds it. *)
Definition period_over (a b : string) (s e alts : Z) : CountyLinePeriod :=
  {| start_time := 60 * s; end_time := 60 * e;
     county_a := a; county_b := b;
     start_idx := s; end_idx := e;
     qso_count := e - s + 1; alternations := alts |}.

(** Scenario 1 of the specification. *)
Definition clean_log : list QSORecord := log ["A"; "B"; "A"; "B"; "A"].

(** Scenario 2 of the specification. *)
Definition off_pair_log : list QSORecord :=
  log ["A"; "B"; "A"; "C"; "A"; "B"; "A"].

(** The clean pattern with its clock running backwards. *)
Definition backwards_log : list QSORecord :=
  log_stepping 240 (-60) ["A"; "B"; "A"; "B"; "A"].

(** Two runs that share a county, three repeats of it in between. *)
Definition shared_county_log : list QSORecord :=
  log ["A"; "B"; "A"; "B"; "B"; "B"; "B"; "C"; "B"; "C"].

(** A run that ends in repeats. *)
Definition repeats_log : list QSORecord := log ["A"; "B"; "B"; "B"; "B"].

(** A run that ends at a third county after one repeat. *)
Definition third_county_log : list QSORecord := log ["A"; "B"; "B"; "C"].


(** A rendering of instants to stand for [isoformat]: the seconds in
    decimal. *)
Definition seconds_text (t : Z) : string :=
  NilZero.string_of_int (Z.to_int t).

(** A log of [county_line_periods.py] in which the pair is found in the
    order B, A. *)
Definition generator_log : list CountyLinePeriodGenerator.QSORecord :=
  map (fun c => {| CountyLinePeriodGenerator.qso_timestamp := 0;
                   CountyLinePeriodGenerator.qso_tx_county := c;
                   CountyLinePeriodGenerator.qso_id := 1 |})
      ["B"; "A"; "B"; "A"].

End Examples.

(** ** Vocabulary of the statements *)

Module Coverage.

Import CountyLineDetector.



End Coverage.


Section Vocabulary.

Context {R : Type} `{QSOLike R}.

(** The county column of a log. *)
Definition county_column (qsos : list R) : list string := map tx_county qsos.

(** Positions [j], [j+1], [j+2] of [w] carry [a], [b], [a], and [a] is not
    [b]. *)
Definition triple_at (w : list R) (j : nat) (a b : string) : Prop :=
  nth_error (county_column w) j = Some a /\
  nth_error (county_column w) (S j) = Some b /\
  nth_error (county_column w) (S (S j)) = Some a /\
  a <> b.

Definition no_triple_at (w : list R) (j : nat) : Prop :=
  forall a b, ~ triple_at w j a b.

(** What the loop has done when it is entered at position [k] with [n]
    iterations left, all of them inside the list. *)
Definition pair_loop_post (w : list R) (n k : nat)
           (r : result (option (string * string))) : Prop :=
  match r with
  | Done (Some (a, b)) =>
      exists j, (k <= j < k + n)%nat /\ triple_at w j a b /\
                forall j', (k <= j' < j)%nat -> no_triple_at w j'
  | Done None => forall j', (k <= j' < k + n)%nat -> no_triple_at w j'
  | Raise _ => False
  end.

(** What a run of the [_trace_pattern] loop returns, seen from the state it
    was entered in: [lo] is the index of the last record that matched, [hi]
    the end of the range, [alt0] the alternations counted so far. *)
Definition trace_post (lo hi alt0 : Z) (r : result (Z * Z)) : Prop :=
  match r with
  | Done (lv, alts) => lo <= lv < hi /\ alt0 <= alts /\ alts - alt0 <= lv - lo
  | Raise _ => False
  end.


(** [expected = county_b if expected == county_a else county_a] *)
Definition flipped (county_a county_b expected : string) : string :=
  if String.eqb expected county_a then county_b else county_a.

(** The states in which the loop of [_trace_pattern] is at the head of an
    iteration: index, [expected], [alternations], [consecutive_same],
    [last_valid_idx]. *)
Inductive trace_reaches (self : Settings) (qsos : list R)
          (county_a county_b : string) (start : Z)
  : Z -> string -> Z -> Z -> Z -> Prop :=
| reach_start (q : R) :
    getitem qsos start = Done q ->
    in_pair (tx_county q) county_a county_b = true ->
    trace_reaches self qsos county_a county_b start
                  start (tx_county q) 0 0 start
| reach_match (i : Z) (expected : string) (alts cs lv : Z) (q : R) :
    trace_reaches self qsos county_a county_b start i expected alts cs lv ->
    getitem qsos i = Done q ->
    in_pair (tx_county q) county_a county_b = true ->
    tx_county q = expected ->
    trace_reaches self qsos county_a county_b start
                  (i + 1) (flipped county_a county_b expected) (alts + 1) 0 i
| reach_noise (i : Z) (expected : string) (alts cs lv : Z) (q : R) :
    trace_reaches self qsos county_a county_b start i expected alts cs lv ->
    getitem qsos i = Done q ->
    in_pair (tx_county q) county_a county_b = true ->
    tx_county q <> expected ->
    cs + 1 <= max_consecutive_same self ->
    trace_reaches self qsos county_a county_b start
                  (i + 1) expected alts (cs + 1) i.

(** Every record after [lo] up to [hi] is of the pair and is not the one
    expected: noise. *)
Definition noise_run (qsos : list R) (county_a county_b expected : string)
           (lo hi : Z) : Prop :=
  forall k, lo < k <= hi ->
            exists q, getitem qsos k = Done q /\
                      in_pair (tx_county q) county_a county_b = true /\
                      tx_county q <> expected.

(** The record at [k] was a true alternation: it is of the pair, and
    [expected] is what the flip after it left. *)
Definition alternation_at (qsos : list R) (county_a county_b expected : string)
           (k : Z) : Prop :=
  exists q, getitem qsos k = Done q /\
            in_pair (tx_county q) county_a county_b = true /\
            expected = flipped county_a county_b (tx_county q).

(** Where the cursor of [find_county_line_periods] goes after an iteration
    at [i] that found [found]. *)
Definition next_cursor {P : Type} (end_idx : P -> Z) (i : Z)
           (found : option P) : Z :=
  match found with
  | Some period => end_idx period + 1
  | None => i + 1
  end.

(** What the iteration appends to [periods]. *)
Definition appended {P : Type} (found : option P) : list P :=
  match found with
  | Some period => [period]
  | None => []
  end.



(** The record at index [k] carries the county [c]. *)
Definition carries (qsos : list R) (k : Z) (c : string) : Prop :=
  exists q, getitem qsos k = Done q /\ tx_county q = c.

End Vocabulary.

(** ** Vocabulary of the further statements *)

Module Agreement.

(** The period of [county_line_periods.py] that carries what a period of
    [_county_line_analyzer.py] carries. *)
Definition as_generator_period (isoformat : Z -> string)
           (p : CountyLineDetector.CountyLinePeriod)
  : CountyLinePeriodGenerator.CountyLinePeriod :=
  {| CountyLinePeriodGenerator.start_time :=
       isoformat (CountyLineDetector.start_time p);
     CountyLinePeriodGenerator.end_time :=
       isoformat (CountyLineDetector.end_time p);
     CountyLinePeriodGenerator.counties :=
       sorted [CountyLineDetector.county_a p; CountyLineDetector.county_b p];
     CountyLinePeriodGenerator.qso_count := CountyLineDetector.qso_count p;
     CountyLinePeriodGenerator.alternations :=
       CountyLineDetector.alternations p;
     CountyLinePeriodGenerator.start_idx := CountyLineDetector.start_idx p;
     CountyLinePeriodGenerator.end_idx := CountyLineDetector.end_idx p |}.

(** A record of [_county_line_analyzer.py] with the instant and the county
    of a record of [county_line_periods.py]. *)
Definition as_detector_record (q : CountyLinePeriodGenerator.QSORecord)
  : CountyLineDetector.QSORecord :=
  {| CountyLineDetector.qso_timestamp :=
       CountyLinePeriodGenerator.qso_timestamp q;
     CountyLineDetector.freq := EmptyString;
     CountyLineDetector.mode := EmptyString;
     CountyLineDetector.tx_call := EmptyString;
     CountyLineDetector.qso_tx_county :=
       CountyLinePeriodGenerator.qso_tx_county q;
     CountyLineDetector.rx_call := EmptyString;
     CountyLineDetector.rx_county := EmptyString;
     CountyLineDetector.qso_id := CountyLinePeriodGenerator.qso_id q |}.

(** All of a period but its two instants. *)
Definition outline (p : CountyLineDetector.CountyLinePeriod)
  : string * string * Z * Z * Z * Z :=
  (CountyLineDetector.county_a p, CountyLineDetector.county_b p,
   CountyLineDetector.start_idx p, CountyLineDetector.end_idx p,
   CountyLineDetector.qso_count p, CountyLineDetector.alternations p).

(** [sum(p.qso_count for p in periods)] *)
Definition total_qsos (periods : list CountyLineDetector.CountyLinePeriod)
  : Z :=
  fold_left (fun acc p => acc + CountyLineDetector.qso_count p) periods 0.

(** The column a, b, a, b, ... of [n] counties. *)
Fixpoint alternating (a b : string) (n : nat) : list string :=
  match n with
  | O => []
  | S n' => a :: alternating b a n'
  end.

End Agreement.

(** ** The Python fragment *)

Section PyFacts.

Context {A : Type}.

Lemma len_nonneg (l : list A) : 0 <= len l.
Proof. unfold len. lia. Qed.

Lemma getitem_of_nat (l : list A) (k : nat) :
  getitem l (Z.of_nat k) =
  match nth_error l k with Some x => Done x | None => Raise IndexError end.
Proof.
  unfold getitem.
  destruct (Z.ltb_spec (Z.of_nat k) 0) as [Hneg | _]; [lia |].
  destruct (Z.ltb_spec (Z.of_nat k) 0) as [Hneg | _]; [lia |].
  now rewrite Nat2Z.id.
Qed.

Lemma getitem_nonneg (l : list A) (i : Z) :
  0 <= i ->
  getitem l i =
  match nth_error l (Z.to_nat i) with
  | Some x => Done x
  | None => Raise IndexError
  end.
Proof.
  intros Hi. rewrite <- (Z2Nat.id i) at 1 by assumption.
  apply getitem_of_nat.
Qed.

Lemma getitem_in_range (l : list A) (i : Z) :
  0 <= i < len l -> exists x, getitem l i = Done x.
Proof.
  intros [Hlo Hhi]. rewrite getitem_nonneg by assumption.
  destruct (nth_error l (Z.to_nat i)) as [x |] eqn:E.
  - now exists x.
  - apply nth_error_None in E. unfold len in Hhi. lia.
Qed.

Lemma getitem_Done_range (l : list A) (i : Z) (x : A) :
  0 <= i -> getitem l i = Done x -> i < len l.
Proof.
  intros Hi. rewrite getitem_nonneg by assumption.
  destruct (nth_error l (Z.to_nat i)) eqn:E; [| discriminate].
  intros _. assert (Hn : nth_error l (Z.to_nat i) <> None) by congruence.
  apply nth_error_Some in Hn. unfold len. lia.
Qed.

Lemma clamp_in_range (l : list A) (k : Z) :
  0 <= k <= len l -> clamp l k = k.
Proof.
  intros Hk. unfold clamp.
  destruct (Z.ltb_spec k 0); lia.
Qed.

Lemma clamp_beyond (l : list A) (k : Z) :
  len l <= k -> clamp l k = len l.
Proof.
  intros Hk. pose proof (len_nonneg l). unfold clamp.
  destruct (Z.ltb_spec k 0); lia.
Qed.

Lemma slice_nonneg (l : list A) (lo hi : Z) :
  0 <= lo -> 0 <= hi <= len l ->
  slice l lo hi = firstn (Z.to_nat (hi - lo)) (skipn (Z.to_nat lo) l).
Proof.
  intros Hlo Hhi. unfold slice. rewrite (clamp_in_range l hi) by assumption.
  destruct (Z_le_gt_dec lo (len l)) as [Hle | Hgt].
  - now rewrite clamp_in_range by lia.
  - rewrite clamp_beyond by lia.
    rewrite !skipn_all2 by (unfold len in *; lia).
    now rewrite !firstn_nil.
Qed.

End PyFacts.

(** ** [_find_alternating_pair] *)

Section PairFinder.

Context {R : Type} `{QSOLike R}.

Lemma county_at (w : list R) (k : nat) (q : R) :
  nth_error w k = Some q ->
  nth_error (county_column w) k = Some (tx_county q).
Proof. intros E. unfold county_column. now apply map_nth_error. Qed.

Lemma pair_loop_extend (w : list R) (n k : nat)
      (r : result (option (string * string))) :
  no_triple_at w k ->
  pair_loop_post w n (S k) r -> pair_loop_post w (S n) k r.
Proof.
  intros Hk. destruct r as [[[a b] |] | e]; simpl; [| | tauto].
  - intros (j & Hj & Ht & Hbefore). exists j. repeat split; try lia; try apply Ht.
    intros j' Hj'. destruct (Nat.eq_dec j' k) as [-> | Hne]; [assumption |].
    apply Hbefore. lia.
  - intros Hall j' Hj'. destruct (Nat.eq_dec j' k) as [-> | Hne]; [assumption |].
    apply Hall. lia.
Qed.

Lemma pair_loop_spec (w : list R) :
  forall n k, (k + n + 2 <= List.length w)%nat ->
              pair_loop_post w n k (pair_loop w n (Z.of_nat k)).
Proof.
  induction n as [| n IH]; intros k Hk.
  - simpl. intros j' Hj'. lia.
  - cbn [pair_loop].
    replace (Z.of_nat k + 1) with (Z.of_nat (S k)) by lia.
    replace (Z.of_nat k + 2) with (Z.of_nat (S (S k))) by lia.
    rewrite !getitem_of_nat.
    destruct (nth_error w k) as [qa |] eqn:Ea;
      [| apply nth_error_None in Ea; lia].
    destruct (nth_error w (S k)) as [qb |] eqn:Eb;
      [| apply nth_error_None in Eb; lia].
    destruct (nth_error w (S (S k))) as [qc |] eqn:Ec;
      [| apply nth_error_None in Ec; lia].
    cbn [bind].
    apply county_at in Ea, Eb, Ec.
    destruct (String.eqb_spec (tx_county qa) (tx_county qb)) as [Eab | Nab].
    + apply pair_loop_extend; [| apply IH; lia].
      intros a b (Ha & Hb & _ & Hne). congruence.
    + destruct (Z.ltb_spec (Z.of_nat (S (S k))) (len w)) as [_ | Hout];
        [| unfold len in Hout; lia].
      cbn [bind].
      destruct (String.eqb_spec (tx_county qc) (tx_county qa)) as [Eca | Nca].
      * simpl. exists k. repeat split; try lia; try assumption.
        now rewrite Ec, Eca.
      * apply pair_loop_extend; [| apply IH; lia].
        intros a b (Ha & _ & Hc & _). congruence.
Qed.

Lemma no_triple_near_end (w : list R) (j : nat) :
  (List.length w <= j + 2)%nat -> no_triple_at w j.
Proof.
  intros Hj a b (_ & _ & Hc & _).
  assert (Hn : nth_error (county_column w) (S (S j)) <> None) by congruence.
  apply nth_error_Some in Hn. unfold county_column in Hn.
  rewrite length_map in Hn. lia.
Qed.

Lemma find_alternating_pair_post (w : list R) :
  pair_loop_post w (List.length w - 2) 0 (_find_alternating_pair w).
Proof.
  unfold _find_alternating_pair.
  replace (Z.to_nat (len w - 2)) with (List.length w - 2)%nat
    by (unfold len; lia).
  destruct (le_lt_dec 2 (List.length w)) as [Hlen | Hshort].
  - change 0 with (Z.of_nat 0). apply pair_loop_spec. lia.
  - replace (List.length w - 2)%nat with 0%nat by lia.
    simpl. intros j' Hj'. lia.
Qed.

Lemma find_alternating_pair_total (w : list R) :
  exists r, _find_alternating_pair w = Done r.
Proof.
  pose proof (find_alternating_pair_post w) as Hpost.
  destruct (_find_alternating_pair w) as [r | e]; [now exists r | contradiction].
Qed.

Lemma find_alternating_pair_Some (w : list R) (a b : string) :
  _find_alternating_pair w = Done (Some (a, b)) ->
  exists j, triple_at w j a b /\ forall j', (j' < j)%nat -> no_triple_at w j'.
Proof.
  intros E. pose proof (find_alternating_pair_post w) as Hpost.
  rewrite E in Hpost. destruct Hpost as (j & _ & Ht & Hbefore).
  exists j. split; [assumption |]. intros j' Hj'. apply Hbefore. lia.
Qed.

Lemma find_alternating_pair_None (w : list R) :
  _find_alternating_pair w = Done None -> forall j, no_triple_at w j.
Proof.
  intros E j. pose proof (find_alternating_pair_post w) as Hpost.
  rewrite E in Hpost. simpl in Hpost.
  destruct (le_lt_dec (List.length w) (j + 2)) as [Hend | Hin].
  - now apply no_triple_near_end.
  - apply Hpost. lia.
Qed.

Lemma find_alternating_pair_short (w : list R) :
  (List.length w < 3)%nat -> _find_alternating_pair w = Done None.
Proof.
  intros Hshort. unfold _find_alternating_pair.
  replace (Z.to_nat (len w - 2)) with 0%nat by (unfold len; lia).
  reflexivity.
Qed.

Lemma pair_distinct (w : list R) (a b : string) :
  _find_alternating_pair w = Done (Some (a, b)) -> a <> b.
Proof.
  intros E. apply find_alternating_pair_Some in E.
  destruct E as (j & (_ & _ & _ & Hne) & _). exact Hne.
Qed.

Lemma pair_needs_three (w : list R) (a b : string) :
  _find_alternating_pair w = Done (Some (a, b)) -> (3 <= List.length w)%nat.
Proof.
  intros E. destruct (le_lt_dec 3 (List.length w)) as [Hok | Hshort];
    [assumption |].
  rewrite find_alternating_pair_short in E by assumption. discriminate.
Qed.

(** The window: at most ten records from the cursor on. *)
Lemma scan_slice_window (qsos : list R) (start : Z) :
  0 <= start ->
  scan_slice qsos start = firstn 10 (skipn (Z.to_nat start) qsos).
Proof.
  intros Hs. unfold scan_slice. pose proof (len_nonneg qsos) as Hlen.
  rewrite slice_nonneg by lia.
  destruct (Z_le_gt_dec (start + 10) (len qsos)) as [Hfit | Hclip].
  - rewrite Z.min_l by assumption. f_equal. lia.
  - rewrite Z.min_r by lia.
    rewrite !firstn_all2; try reflexivity;
      rewrite length_skipn; unfold len in *; lia.
Qed.

Lemma scan_slice_length (qsos : list R) (start : Z) :
  0 <= start ->
  Z.of_nat (List.length (scan_slice qsos start)) =
  Z.max 0 (Z.min 10 (len qsos - start)).
Proof.
  intros Hs. rewrite scan_slice_window by assumption.
  rewrite length_firstn, length_skipn. unfold len. lia.
Qed.

End PairFinder.

(** ** [_trace_pattern] *)

Section PatternTracer.

Context {R : Type} `{QSOLike R}.

Variables (qsos : list R) (county_a county_b : string).

Lemma trace_post_weaken (lo lo' hi hi' alt0 alt0' : Z) (r : result (Z * Z)) :
  lo' <= lo -> hi <= hi' -> alt0' <= alt0 -> alt0 - alt0' <= lo - lo' ->
  trace_post lo hi alt0 r -> trace_post lo' hi' alt0' r.
Proof.
  intros Hlo Hhi Ha Hd. destruct r as [[lv alts] | e]; simpl; [lia | tauto].
Qed.

Lemma trace_loop_post (self : Settings) :
  forall n i expected alts cs lv,
    0 <= i -> i + Z.of_nat n <= len qsos -> 0 <= cs -> lv = i - 1 ->
    trace_post (lv - cs) (i + Z.of_nat n) alts
               (trace_loop self qsos county_a county_b n i expected alts cs lv).
Proof.
  induction n as [| n IH]; intros i expected alts cs lv Hi Hn Hcs Hlv.
  - simpl. lia.
  - cbn [trace_loop].
    destruct (getitem_in_range qsos i) as [q Eq]; [lia |].
    rewrite Eq. cbn [bind].
    destruct (in_pair (tx_county q) county_a county_b); cbn [negb];
      [| simpl; lia].
    destruct (String.eqb (tx_county q) expected).
    + eapply trace_post_weaken;
        [| | | | apply IH; try reflexivity; lia]; lia.
    + destruct (Z.gtb_spec (cs + 1) (max_consecutive_same self)).
      * simpl. lia.
      * eapply trace_post_weaken;
          [| | | | apply IH; try reflexivity; lia]; lia.
Qed.

(** The first record read is the one [expected] was taken from: the loop's
    first iteration counts it and flips [expected]. *)
Lemma trace_pattern_first (self : Settings) (start : Z) (q : R) :
  0 <= start ->
  getitem qsos start = Done q ->
  in_pair (tx_county q) county_a county_b = true ->
  _trace_pattern self qsos start county_a county_b =
  trace_loop self qsos county_a county_b
             (Z.to_nat (len qsos - start) - 1) (start + 1)
             (flipped county_a county_b (tx_county q)) 1 0 start.
Proof.
  intros Hs Eq Hin. unfold _trace_pattern. rewrite Eq. cbn [bind].
  rewrite Hin. cbn [negb].
  pose proof (getitem_Done_range qsos start q Hs Eq) as Hlt.
  destruct (Z.to_nat (len qsos - start)) as [| n] eqn:En; [lia |].
  cbn [trace_loop]. rewrite Eq. cbn [bind]. rewrite Hin. cbn [negb].
  rewrite String.eqb_refl. now rewrite Nat.sub_1_r.
Qed.

Lemma trace_pattern_off_pair (self : Settings) (start : Z) (q : R) :
  getitem qsos start = Done q ->
  in_pair (tx_county q) county_a county_b = false ->
  _trace_pattern self qsos start county_a county_b = Done (start, 0).
Proof.
  intros Eq Hout. unfold _trace_pattern. rewrite Eq. cbn [bind].
  now rewrite Hout.
Qed.

(** From a record of the pair the trace ends inside the list, at or after
    its start, having counted at least the first record and at most one
    alternation a record. *)
Lemma trace_pattern_in_pair (self : Settings) (start : Z) (q : R) :
  0 <= start ->
  getitem qsos start = Done q ->
  in_pair (tx_county q) county_a county_b = true ->
  trace_post start (len qsos) 1
             (_trace_pattern self qsos start county_a county_b).
Proof.
  intros Hs Eq Hin. rewrite (trace_pattern_first self start q) by assumption.
  pose proof (getitem_Done_range qsos start q Hs Eq) as Hlt.
  eapply trace_post_weaken;
    [| | | | apply trace_loop_post; try reflexivity; lia]; lia.
Qed.

Lemma trace_pattern_total (self : Settings) (start : Z) :
  0 <= start < len qsos ->
  exists lv alts,
    _trace_pattern self qsos start county_a county_b = Done (lv, alts) /\
    start <= lv < len qsos /\ 0 <= alts <= lv - start + 1.
Proof.
  intros Hs. destruct (getitem_in_range qsos start Hs) as [q Eq].
  destruct (in_pair (tx_county q) county_a county_b) eqn:Hin.
  - pose proof (trace_pattern_in_pair self start q (proj1 Hs) Eq Hin) as Hp.
    destruct (_trace_pattern self qsos start county_a county_b)
      as [[lv alts] | e]; [| contradiction].
    exists lv, alts. simpl in Hp. split; [reflexivity | lia].
  - rewrite (trace_pattern_off_pair self start q Eq Hin).
    exists start, 0. split; [reflexivity | lia].
Qed.

(** *** A larger tolerance never ends a trace earlier *)



End PatternTracer.

(** *** The states of a trace *)

Section TraceStates.

Context {R : Type} `{QSOLike R}.

Variables (self : Settings) (qsos : list R) (county_a county_b : string).
Variable start : Z.
Hypothesis start_nonneg : 0 <= start.

Lemma reach_from_start (i : Z) (expected : string) (alts cs lv : Z) :
  trace_reaches self qsos county_a county_b start i expected alts cs lv ->
  start <= i /\ 0 <= alts.
Proof. induction 1; lia. Qed.

(** Either no record has been read yet, or the state remembers the last
    alternation and the noise that followed it. *)
Lemma reach_invariant (i : Z) (expected : string) (alts cs lv : Z) :
  trace_reaches self qsos county_a county_b start i expected alts cs lv ->
  (i = start /\ lv = start /\ cs = 0 /\ alts = 0 /\
   exists q, getitem qsos start = Done q /\ expected = tx_county q /\
             in_pair (tx_county q) county_a county_b = true)
  \/
  (start < i /\ lv = i - 1 /\ 0 <= cs /\ start <= lv - cs /\ 1 <= alts /\
   alternation_at qsos county_a county_b expected (lv - cs) /\
   noise_run qsos county_a county_b expected (lv - cs) lv).
Proof.
  induction 1 as [q Eq Hin
                 | i expected alts cs lv q Hreach IH Eq Hin Hexp
                 | i expected alts cs lv q Hreach IH Eq Hin Hexp Hcs].
  - left. repeat split; try reflexivity. now exists q.
  - right. pose proof (reach_from_start _ _ _ _ _ Hreach) as [Hi Halts].
    repeat split; try lia.
    + exists q. replace (i - 0) with i by lia. subst expected. now repeat split.
    + intros k Hk. lia.
  - right. destruct IH as [(Hi & Hlv & Hz & _ & q0 & Eq0 & Hexp0 & _)
                          | (Hi & Hlv & Hz & Hlo & Halts & Halt & Hnoise)].
    + subst i. rewrite Eq0 in Eq. injection Eq as <-. congruence.
    + replace (i - (cs + 1)) with (lv - cs) by lia.
      repeat split; try lia; try assumption.
      intros k Hk. destruct (Z.eq_dec k i) as [-> | Hne].
      * exists q. now repeat split.
      * apply Hnoise. lia.
Qed.

(** Resuming the loop in a state of the trace gives what the trace gives. *)
Lemma reach_resumes (i : Z) (expected : string) (alts cs lv : Z) :
  trace_reaches self qsos county_a county_b start i expected alts cs lv ->
  trace_loop self qsos county_a county_b (Z.to_nat (len qsos - i)) i
             expected alts cs lv =
  _trace_pattern self qsos start county_a county_b.
Proof.
  induction 1 as [q Eq Hin
                 | i expected alts cs lv q Hreach IH Eq Hin Hexp
                 | i expected alts cs lv q Hreach IH Eq Hin Hexp Hcs].
  - unfold _trace_pattern. rewrite Eq. cbn [bind]. now rewrite Hin.
  - rewrite <- IH.
    pose proof (reach_from_start _ _ _ _ _ Hreach) as [Hi _].
    pose proof (getitem_Done_range qsos i q ltac:(lia) Eq) as Hlt.
    replace (Z.to_nat (len qsos - i))
      with (S (Z.to_nat (len qsos - (i + 1)))) by lia.
    cbn [trace_loop]. rewrite Eq. cbn [bind]. rewrite Hin. cbn [negb].
    subst expected. now rewrite String.eqb_refl.
  - rewrite <- IH.
    pose proof (reach_from_start _ _ _ _ _ Hreach) as [Hi _].
    pose proof (getitem_Done_range qsos i q ltac:(lia) Eq) as Hlt.
    replace (Z.to_nat (len qsos - i))
      with (S (Z.to_nat (len qsos - (i + 1)))) by lia.
    cbn [trace_loop]. rewrite Eq. cbn [bind]. rewrite Hin. cbn [negb].
    apply String.eqb_neq in Hexp. rewrite Hexp.
    destruct (Z.gtb_spec (cs + 1) (max_consecutive_same self)); [lia |].
    reflexivity.
Qed.

(** One more record, read in a state of the trace. *)
Lemma reach_step (i : Z) (expected : string) (alts cs lv : Z) (q : R) :
  trace_reaches self qsos county_a county_b start i expected alts cs lv ->
  getitem qsos i = Done q ->
  _trace_pattern self qsos start county_a county_b =
  if negb (in_pair (tx_county q) county_a county_b) then Done (lv, alts)
  else if String.eqb (tx_county q) expected then
         trace_loop self qsos county_a county_b
                    (Z.to_nat (len qsos - (i + 1))) (i + 1)
                    (flipped county_a county_b expected) (alts + 1) 0 i
       else if cs + 1 >? max_consecutive_same self then
              Done (i - (cs + 1), alts)
            else
              trace_loop self qsos county_a county_b
                         (Z.to_nat (len qsos - (i + 1))) (i + 1)
                         expected alts (cs + 1) i.
Proof.
  intros Hreach Eq. rewrite <- (reach_resumes _ _ _ _ _ Hreach).
  pose proof (reach_from_start _ _ _ _ _ Hreach) as [Hi _].
  pose proof (getitem_Done_range qsos i q ltac:(lia) Eq) as Hlt.
  replace (Z.to_nat (len qsos - i))
    with (S (Z.to_nat (len qsos - (i + 1)))) by lia.
  cbn [trace_loop]. rewrite Eq. reflexivity.
Qed.

End TraceStates.

(** ** The driving loop *)

Section DrivingLoop.

Context {P : Type} (end_idx : P -> Z)
        (detect : Z -> result (option P)) (bound : Z).

Lemma while_loop_step (fuel : nat) (i : Z) (periods : list P)
      (found : option P) :
  i < bound ->
  detect i = Done found ->
  while_loop end_idx detect bound (S fuel) i periods =
  while_loop end_idx detect bound fuel
             (next_cursor end_idx i found) (periods ++ appended found).
Proof.
  intros Hi Ed. cbn [while_loop].
  destruct (Z.ltb_spec i bound) as [_ | Hge]; [| lia].
  rewrite Ed. destruct found as [period |]; cbn [next_cursor appended].
  - reflexivity.
  - now rewrite app_nil_r.
Qed.

Lemma while_loop_exit (fuel : nat) (i : Z) (periods : list P) :
  bound <= i ->
  while_loop end_idx detect bound fuel i periods = Some (Done periods).
Proof.
  intros Hi. destruct fuel; cbn [while_loop];
    destruct (Z.ltb_spec i bound); (lia || reflexivity).
Qed.

(** A property of cursor and list that every iteration keeps holds of what
    the loop returns. *)
Lemma while_loop_invariant (Inv : Z -> list P -> Prop) :
  (forall i periods found,
      Inv i periods -> i < bound -> detect i = Done found ->
      Inv (next_cursor end_idx i found) (periods ++ appended found)) ->
  forall fuel i periods periods',
    Inv i periods ->
    while_loop end_idx detect bound fuel i periods = Some (Done periods') ->
    exists i', bound <= i' /\ Inv i' periods'.
Proof.
  intros Hkeep. induction fuel as [| fuel IH]; intros i periods periods' Hinv E.
  - cbn [while_loop] in E. destruct (Z.ltb_spec i bound); [discriminate |].
    injection E as <-. now exists i.
  - destruct (Z.ltb_spec i bound) as [Hlt | Hge].
    + destruct (detect i) as [found | e] eqn:Ed.
      * rewrite (while_loop_step fuel i periods found Hlt Ed) in E.
        eapply IH; [| exact E]. now apply Hkeep.
      * cbn [while_loop] in E.
        destruct (Z.ltb_spec i bound); [| lia].
        rewrite Ed in E. discriminate.
    + rewrite while_loop_exit in E by assumption.
      injection E as <-. now exists i.
Qed.

(** The loop ends as soon as every iteration moves the cursor forward. *)
Lemma while_loop_total :
  (forall i, 0 <= i -> exists found,
        detect i = Done found /\ i < next_cursor end_idx i found) ->
  forall fuel i periods,
    0 <= i -> (Z.to_nat (bound - i) <= fuel)%nat ->
    exists periods',
      while_loop end_idx detect bound fuel i periods = Some (Done periods').
Proof.
  intros Hforward. induction fuel as [| fuel IH]; intros i periods Hi Hfuel.
  - exists periods. apply while_loop_exit. lia.
  - destruct (Z_lt_le_dec i bound) as [Hlt | Hge].
    + destruct (Hforward i Hi) as (found & Ed & Hnext).
      rewrite (while_loop_step fuel i periods found Hlt Ed).
      apply IH; lia.
    + exists periods. now apply while_loop_exit.
Qed.


(** Whatever the loop returns was in the list already or was found by
    [detect] at a cursor of the loop. *)
Lemma while_loop_emitted (fuel : nat) (i : Z) (periods periods' : list P) :
  0 <= i ->
  (forall j, 0 <= j -> forall found,
        detect j = Done found -> j < next_cursor end_idx j found) ->
  while_loop end_idx detect bound fuel i periods = Some (Done periods') ->
  forall period, In period periods' ->
                 In period periods \/
                 exists j, i <= j < bound /\ detect j = Done (Some period).
Proof.
  intros Hi Hforward E.
  destruct (while_loop_invariant
              (fun k ps => i <= k /\
                           forall period, In period ps ->
                             In period periods \/
                             exists j, i <= j < bound /\
                                       detect j = Done (Some period))
              ) with (fuel := fuel) (i := i) (periods := periods)
                     (periods' := periods') as (i' & _ & _ & Hall).
  - intros k ps found [Hk Hps] Hlt Ed. split.
    + specialize (Hforward k ltac:(lia) found Ed). lia.
    + intros period Hin. apply in_app_or in Hin.
      destruct Hin as [Hin | Hin]; [now apply Hps |].
      destruct found as [period0 |]; [| contradiction].
      destruct Hin as [<- | []]. right. exists k. split; [lia | assumption].
  - split; [lia |]. intros period Hin. now left.
  - exact E.
  - exact Hall.
Qed.

Lemma while_loop_more_fuel :
  forall fuel fuel' i periods r,
    (fuel <= fuel')%nat ->
    while_loop end_idx detect bound fuel i periods = Some r ->
    while_loop end_idx detect bound fuel' i periods = Some r.
Proof.
  induction fuel as [| fuel IH]; intros fuel' i periods r Hle E.
  - cbn [while_loop] in E. destruct (Z.ltb_spec i bound); [discriminate |].
    injection E as <-. now apply while_loop_exit.
  - destruct fuel' as [| fuel']; [lia |].
    cbn [while_loop] in E |- *. destruct (i <? bound); [| assumption].
    destruct (detect i) as [[period |] | e]; try assumption;
      apply (IH fuel'); (lia || assumption).
Qed.

End DrivingLoop.

(** ** Lists in which every element is related to all later ones *)

Section Chains.

Context {P : Type} (before : P -> P -> Prop).

Lemma StronglySorted_snoc (l : list P) (x : P) :
  StronglySorted before l ->
  (forall y, In y l -> before y x) ->
  StronglySorted before (l ++ [x]).
Proof.
  induction 1 as [| y l Hl IH Hy]; intros Hall; simpl.
  - constructor; constructor.
  - constructor.
    + apply IH. intros z Hz. apply Hall. now right.
    + apply Forall_app. split; [assumption |].
      constructor; [| constructor]. apply Hall. now left.
Qed.

Lemma StronglySorted_adjacent (l : list P) :
  StronglySorted before l ->
  forall k x y,
    nth_error l k = Some x -> nth_error l (S k) = Some y -> before x y.
Proof.
  induction 1 as [| z l Hl IH Hz]; intros k x y Ex Ey.
  - destruct k; discriminate.
  - destruct k as [| k].
    + simpl in Ex. injection Ex as <-.
      rewrite Forall_forall in Hz. apply Hz.
      apply (nth_error_In l 0). exact Ey.
    + simpl in Ex. eapply IH; [exact Ex | exact Ey].
Qed.

End Chains.

(** ** [CountyLineDetector] of [_county_line_analyzer.py] *)

Module DetectorFacts.

Import CountyLineDetector.

(** What [_detect_period_from] gives at a cursor. *)
Lemma detect_post (self : Settings) (qsos : list QSORecord) (start : Z) :
  0 <= start ->
  match _detect_period_from self qsos start with
  | Done (Some p) =>
      start_idx p = start /\ start <= end_idx p < len qsos /\
      qso_count p = end_idx p - start_idx p + 1 /\
      min_alternations self <= alternations p /\
      0 <= alternations p <= qso_count p /\
      county_a p <> county_b p /\
      _find_alternating_pair (scan_slice qsos start) =
        Done (Some (county_a p, county_b p)) /\
      _trace_pattern self qsos start (county_a p) (county_b p) =
        Done (end_idx p, alternations p) /\
      (exists qs, getitem qsos start = Done qs /\ start_time p = timestamp qs) /\
      (exists qe, getitem qsos (end_idx p) = Done qe /\
                  end_time p = timestamp qe)
  | Done None => True
  | Raise _ => False
  end.
Proof.
  intros Hs. unfold _detect_period_from.
  destruct (Z.geb_spec (start + min_alternations self) (len qsos));
    [exact I |].
  destruct (find_alternating_pair_total (scan_slice qsos start)) as [r Er].
  rewrite Er. cbn [bind]. destruct r as [[a b] |]; [| exact I].
  pose proof (pair_needs_three _ _ _ Er) as Hthree.
  pose proof (pair_distinct _ _ _ Er) as Hne.
  pose proof (scan_slice_length qsos start Hs) as Hlen.
  assert (Hin : 0 <= start < len qsos) by lia.
  destruct (trace_pattern_total qsos a b self start Hin)
    as (lv & alts & Et & Hlv & Halts).
  rewrite Et. cbn [bind].
  destruct (Z.geb_spec alts (min_alternations self)); [| exact I].
  destruct (getitem_in_range qsos start Hin) as [qs Es].
  destruct (getitem_in_range qsos lv) as [qe Ee]; [lia |].
  rewrite Es, Ee. cbn.
  repeat split; try lia; try assumption.
  - now exists qs.
  - now exists qe.
Qed.

Lemma detect_total (self : Settings) (qsos : list QSORecord) (i : Z) :
  0 <= i ->
  exists found,
    _detect_period_from self qsos i = Done found /\
    (forall p, found = Some p -> start_idx p = i /\ i <= end_idx p) /\
    i < next_cursor end_idx i found.
Proof.
  intros Hi. pose proof (detect_post self qsos i Hi) as Hpost.
  destruct (_detect_period_from self qsos i) as [[p |] | e]; [| | contradiction].
  - exists (Some p). cbn [next_cursor].
    split; [reflexivity |]. split; [| lia].
    intros p' [= <-]. lia.
  - exists None. cbn [next_cursor].
    split; [reflexivity |]. split; [| lia].
    intros p' [=].
Qed.

Lemma detect_forward (self : Settings) (qsos : list QSORecord) :
  forall j, 0 <= j -> forall found,
      _detect_period_from self qsos j = Done found ->
      j < next_cursor end_idx j found.
Proof.
  intros j Hj found E.
  destruct (detect_total self qsos j Hj) as (found' & E' & _ & Hnext).
  congruence.
Qed.

Lemma find_fuel_total (self : Settings) (qsos : list QSORecord) (fuel : nat) :
  (Z.to_nat (len qsos - min_alternations self) <= fuel)%nat ->
  exists periods,
    find_county_line_periods_fuel fuel self qsos = Some (Done periods).
Proof.
  intros Hfuel. unfold find_county_line_periods_fuel.
  destruct (len qsos <? min_alternations self + 1); [now exists [] |].
  apply while_loop_total; try lia.
  intros i Hi. destruct (detect_total self qsos i Hi) as (found & E & _ & Hn).
  now exists found.
Qed.

Lemma find_total (self : Settings) (qsos : list QSORecord) :
  exists periods, find_county_line_periods self qsos = Some (Done periods).
Proof. apply find_fuel_total. lia. Qed.

Lemma find_fuel_enough (self : Settings) (qsos : list QSORecord) (fuel : nat) :
  (Z.to_nat (len qsos - min_alternations self) <= fuel)%nat ->
  find_county_line_periods_fuel fuel self qsos =
  find_county_line_periods self qsos.
Proof.
  intros Hfuel. destruct (find_total self qsos) as [periods E].
  rewrite E. unfold find_county_line_periods in E.
  unfold find_county_line_periods_fuel in *.
  destruct (len qsos <? min_alternations self + 1); [assumption |].
  eapply while_loop_more_fuel; [exact Hfuel | exact E].
Qed.

(** Every period of the result was found by [_detect_period_from] at a
    cursor of the loop. *)
Lemma find_emitted (self : Settings) (qsos : list QSORecord)
      (periods : list CountyLinePeriod) :
  find_county_line_periods self qsos = Some (Done periods) ->
  forall p, In p periods ->
            exists i, 0 <= i < len qsos - min_alternations self /\
                      _detect_period_from self qsos i = Done (Some p).
Proof.
  unfold find_county_line_periods, find_county_line_periods_fuel.
  destruct (len qsos <? min_alternations self + 1).
  - intros [= <-] p [].
  - intros E p Hin.
    destruct (while_loop_emitted _ _ _ _ _ _ _ (Z.le_refl 0)
                                 (detect_forward self qsos) E p Hin)
      as [[] | Hfound].
    exact Hfound.
Qed.

(** The periods of the result lie one after the other. *)
Lemma find_chain (self : Settings) (qsos : list QSORecord)
      (periods : list CountyLinePeriod) :
  find_county_line_periods self qsos = Some (Done periods) ->
  StronglySorted (fun p q => end_idx p < start_idx q) periods.
Proof.
  unfold find_county_line_periods, find_county_line_periods_fuel.
  destruct (len qsos <? min_alternations self + 1).
  - intros [= <-]. constructor.
  - intros E.
    destruct (while_loop_invariant
                end_idx (_detect_period_from self qsos)
                (len qsos - min_alternations self)
                (fun i ps =>
                   0 <= i /\
                   StronglySorted (fun p q => end_idx p < start_idx q) ps /\
                   forall p, In p ps -> end_idx p < i))
      with (fuel := Z.to_nat (len qsos - min_alternations self))
           (i := 0) (periods := @nil CountyLinePeriod) (periods' := periods)
      as (i' & _ & _ & Hsorted & _).
    + intros i ps found (Hi & Hs & Hbelow) _ Ed.
      destruct (detect_total self qsos i Hi) as (found' & Ed' & Hp & Hnext).
      assert (found' = found) as -> by congruence.
      split; [lia |].
      destruct found as [p |]; cbn [next_cursor appended] in *.
      * destruct (Hp p eq_refl) as [Hstart Hend]. split.
        -- apply StronglySorted_snoc; [assumption |].
           intros y Hy. specialize (Hbelow y Hy). lia.
        -- intros y Hy. apply in_app_or in Hy. destruct Hy as [Hy | [<- | []]].
           ++ specialize (Hbelow y Hy). lia.
           ++ lia.
      * rewrite app_nil_r. split; [assumption |].
        intros y Hy. specialize (Hbelow y Hy). lia.
    + repeat split; try lia; [constructor | intros p []].
    + exact E.
    + exact Hsorted.
Qed.


End DetectorFacts.

(** ** [CountyLinePeriodGenerator] of [county_line_periods.py] *)

Module GeneratorFacts.

Import CountyLinePeriodGenerator.




End GeneratorFacts.

(** ** The statements of the specification *)

Module Spec.

Import CountyLineDetector Examples Coverage DetectorFacts.

(** Every period of a result starts where it was looked for, is counted
    from its indices, reaches the required alternations, and has no more
    alternations than records. *)
Lemma period_counts (self : Settings) (qsos : list QSORecord)
      (periods : list CountyLinePeriod) :
  find_county_line_periods self qsos = Some (Done periods) ->
  forall p, In p periods ->
            0 <= start_idx p <= end_idx p /\ end_idx p < len qsos /\
            qso_count p = end_idx p - start_idx p + 1 /\
            min_alternations self <= alternations p <= qso_count p /\
            county_a p <> county_b p.
Proof.
  intros E p Hin. destruct (find_emitted self qsos periods E p Hin)
    as (i & Hi & Ed).
  pose proof (detect_post self qsos i (proj1 Hi)) as Hpost.
  rewrite Ed in Hpost. intuition lia.
Qed.

(** The analyzer keeps the pair in the order in which it was found. *)
Remark detector_pair_in_found_order :
  find_county_line_periods default_settings (log ["B"; "A"; "B"; "A"]) =
  Some (Done [period_over "B" "A" 0 3 4]).
Proof. vm_compute. reflexivity. Qed.

(** C1: on the tx_county sequence A,B,A,B,A under the default settings the
    detector returns one period over the counties A and B with
    [qso_count = 5]; its [alternations] field is 5, the first record being
    counted with the four changes of county. *)
Theorem clean_pattern_counts_first_record :
  find_county_line_periods default_settings clean_log =
  Some (Done [period_over "A" "B" 0 4 5]).
Proof. vm_compute. reflexivity. Qed.

(** C2: the period that the detector emits on A,B,A,B,A has
    [qso_count = end_idx - start_idx + 1], and its [alternations] equals its
    [qso_count], so that [qso_count] is below [alternations + 1]. *)
Theorem clean_pattern_alternations_reach_qso_count :
  exists p,
    find_county_line_periods default_settings clean_log = Some (Done [p]) /\
    qso_count p = end_idx p - start_idx p + 1 /\
    alternations p = qso_count p /\
    qso_count p < alternations p + 1.
Proof.
  exists (period_over "A" "B" 0 4 5).
  split; [vm_compute; reflexivity |]. cbn. lia.
Qed.

(** C3: on the tx_county sequence A,B,A,C,A,B,A under the default settings
    the detector returns one period, over the records 0 to 2 with
    [alternations = 3]: the trace from index 0 ends at the third county and
    its three counted records reach the minimum. *)
Theorem off_pair_break_emits_period :
  find_county_line_periods default_settings off_pair_log =
  Some (Done [period_over "A" "B" 0 2 3]).
Proof. vm_compute. reflexivity. Qed.




(** C5: for every input sequence and every configuration the list that
    [find_county_line_periods] returns is ordered by [start_idx] and its
    periods do not overlap: each period ends before the next one starts,
    and so before every later one. *)
Theorem periods_ordered_disjoint (self : Settings) (qsos : list QSORecord)
        (periods : list CountyLinePeriod) :
  find_county_line_periods self qsos = Some (Done periods) ->
  (forall k p q,
      nth_error periods k = Some p -> nth_error periods (S k) = Some q ->
      start_idx p < start_idx q /\ end_idx p < start_idx q) /\
  StronglySorted (fun p q => end_idx p < start_idx q) periods.
Proof.
  intros E. pose proof (find_chain self qsos periods E) as Hchain.
  split; [| assumption]. intros k p q Ep Eq.
  pose proof (StronglySorted_adjacent _ periods Hchain k p q Ep Eq) as Hpq.
  simpl in Hpq.
  pose proof (period_counts self qsos periods E p (nth_error_In _ _ Ep)).
  lia.
Qed.

Lemma periods_ordered_disjoint_witness :
  find_county_line_periods default_settings shared_county_log =
  Some (Done [period_over "A" "B" 0 3 4; period_over "B" "C" 4 9 4]) /\
  start_idx (period_over "A" "B" 0 3 4) < start_idx (period_over "B" "C" 4 9 4)
  /\ end_idx (period_over "A" "B" 0 3 4) < start_idx (period_over "B" "C" 4 9 4).
Proof.
  split; [vm_compute; reflexivity |].
  apply (proj1 (periods_ordered_disjoint
                  default_settings shared_county_log
                  [period_over "A" "B" 0 3 4; period_over "B" "C" 4 9 4]
                  ltac:(vm_compute; reflexivity)) 0%nat);
    reflexivity.
Defined.





(** C7: in every trace, a record of the pair that is not the expected one
    and brings [consecutive_same] above [max_consecutive_same] ends the trace
    with [last_valid_idx] set back to [i - consecutive_same]; that index is
    not before the start, the record there was an alternation, and all the
    records after it up to [i] are noise, so the whole noisy tail is
    dropped.  A record that is of neither county ends the trace at the
    current [last_valid_idx], the record just before it, and the noise
    counted so far stays in. *)
Theorem noise_boundary {R : Type} `{QSOLike R} (self : Settings)
        (qsos : list R) (county_a county_b : string) (start i : Z)
        (expected : string) (alts cs lv : Z) (q : R) :
  0 <= start ->
  trace_reaches self qsos county_a county_b start i expected alts cs lv ->
  getitem qsos i = Done q ->
  (in_pair (tx_county q) county_a county_b = true ->
   tx_county q <> expected ->
   cs + 1 > max_consecutive_same self ->
   _trace_pattern self qsos start county_a county_b =
     Done (i - (cs + 1), alts) /\
   start <= i - (cs + 1) /\
   alternation_at qsos county_a county_b expected (i - (cs + 1)) /\
   noise_run qsos county_a county_b expected (i - (cs + 1)) i)
  /\
  (in_pair (tx_county q) county_a county_b = false ->
   _trace_pattern self qsos start county_a county_b = Done (lv, alts) /\
   lv = i - 1 /\
   noise_run qsos county_a county_b expected (lv - cs) lv).
Proof.
  intros Hs Hreach Eq.
  pose proof (reach_step self qsos county_a county_b start Hs
                         i expected alts cs lv q Hreach Eq) as Hstep.
  pose proof (reach_invariant self qsos county_a county_b start
                              i expected alts cs lv Hreach) as Hinv.
  split.
  - intros Hin Hne Hcs. rewrite Hin in Hstep. cbn [negb] in Hstep.
    apply String.eqb_neq in Hne. rewrite Hne in Hstep.
    destruct (Z.gtb_spec (cs + 1) (max_consecutive_same self)); [| lia].
    split; [assumption |].
    destruct Hinv as [(Hi & _ & _ & _ & q0 & Eq0 & Hexp0 & _)
                     | (Hi & Hlv & Hz & Hlo & _ & Halt & Hnoise)].
    + subst i. rewrite Eq0 in Eq. injection Eq as <-.
      apply String.eqb_neq in Hne. congruence.
    + replace (i - (cs + 1)) with (lv - cs) by lia.
      repeat split; try lia; try assumption.
      intros k Hk. destruct (Z.eq_dec k i) as [-> | Hki].
      * exists q. apply String.eqb_neq in Hne. now repeat split.
      * apply Hnoise. lia.
  - intros Hout. rewrite Hout in Hstep. cbn [negb] in Hstep.
    split; [assumption |].
    destruct Hinv as [(Hi & _ & _ & _ & q0 & Eq0 & _ & Hin0)
                     | (Hi & Hlv & Hz & Hlo & _ & Halt & Hnoise)].
    + subst i. rewrite Eq0 in Eq. injection Eq as <-. congruence.
    + split; assumption.
Qed.

Lemma noise_boundary_witness :
  _trace_pattern default_settings repeats_log 0 "A" "B" = Done (1, 2) /\
  _trace_pattern default_settings third_county_log 0 "A" "B" = Done (2, 2).
Proof.
  split.
  - edestruct (noise_boundary default_settings repeats_log "A" "B"
                              0 4 "A" 2 2 3) as [Hnoise _].
    + lia.
    + eapply (reach_noise default_settings repeats_log "A" "B" 0 3 "A" 2 1 2);
        [ | vm_compute; reflexivity | reflexivity
          | vm_compute; discriminate | vm_compute; discriminate ].
      eapply (reach_noise default_settings repeats_log "A" "B" 0 2 "A" 2 0 1);
        [ | vm_compute; reflexivity | reflexivity
          | vm_compute; discriminate | vm_compute; discriminate ].
      eapply (reach_match default_settings repeats_log "A" "B" 0 1 "B" 1 0 0);
        [ | vm_compute; reflexivity | reflexivity | reflexivity ].
      eapply (reach_match default_settings repeats_log "A" "B" 0 0 "A" 0 0 0);
        [ | vm_compute; reflexivity | reflexivity | reflexivity ].
      exact (reach_start default_settings repeats_log "A" "B" 0
                         (record_at "A" 0) eq_refl eq_refl).
    + vm_compute. reflexivity.
    + apply Hnoise; [reflexivity | vm_compute; discriminate | reflexivity].
  - edestruct (noise_boundary default_settings third_county_log "A" "B"
                              0 3 "A" 2 1 2) as [_ Hbreak].
    + lia.
    + eapply (reach_noise default_settings third_county_log "A" "B"
                          0 2 "A" 2 0 1);
        [ | vm_compute; reflexivity | reflexivity
          | vm_compute; discriminate | vm_compute; discriminate ].
      eapply (reach_match default_settings third_county_log "A" "B"
                          0 1 "B" 1 0 0);
        [ | vm_compute; reflexivity | reflexivity | reflexivity ].
      eapply (reach_match default_settings third_county_log "A" "B"
                          0 0 "A" 0 0 0);
        [ | vm_compute; reflexivity | reflexivity | reflexivity ].
      exact (reach_start default_settings third_county_log "A" "B" 0
                         (record_at "A" 0) eq_refl eq_refl).
    + vm_compute. reflexivity.
    + apply Hbreak. reflexivity.
Defined.

(** C8: the window that [_detect_period_from] hands over holds the records
    from the cursor on, ten at most and fewer at the end of the sequence;
    on it [_find_alternating_pair] returns the pair (A, B) of the leftmost
    positions j, j+1, j+2 whose counties are A, B, A with A different from
    B, and returns no pair when there is no such triple, as in every window
    of fewer than three records. *)
Theorem pair_finder_contract {R : Type} `{QSOLike R}
        (qsos : list R) (start : Z) :
  0 <= start ->
  scan_slice qsos start = firstn 10 (skipn (Z.to_nat start) qsos) /\
  (List.length (scan_slice qsos start) <= 10)%nat /\
  match _find_alternating_pair (scan_slice qsos start) with
  | Done (Some (a, b)) =>
      exists j, triple_at (scan_slice qsos start) j a b /\
                forall j', (j' < j)%nat ->
                           no_triple_at (scan_slice qsos start) j'
  | Done None => forall j, no_triple_at (scan_slice qsos start) j
  | Raise _ => False
  end /\
  ((List.length (scan_slice qsos start) < 3)%nat ->
   _find_alternating_pair (scan_slice qsos start) = Done None).
Proof.
  intros Hs. split; [now apply scan_slice_window |]. split.
  - rewrite scan_slice_window by assumption. rewrite length_firstn. lia.
  - split; [| apply find_alternating_pair_short].
    destruct (_find_alternating_pair (scan_slice qsos start))
      as [[[a b] |] | e] eqn:E.
    + now apply find_alternating_pair_Some.
    + now apply find_alternating_pair_None.
    + destruct (find_alternating_pair_total (scan_slice qsos start)) as [r Er].
      congruence.
Qed.

Lemma pair_finder_contract_witness :
  _find_alternating_pair (scan_slice shared_county_log 4) =
  Done (Some ("B", "C")) /\
  exists j, triple_at (scan_slice shared_county_log 4) j "B" "C" /\
            forall j', (j' < j)%nat ->
                       no_triple_at (scan_slice shared_county_log 4) j'.
Proof.
  assert (E : _find_alternating_pair (scan_slice shared_county_log 4) =
              Done (Some ("B", "C"))) by (vm_compute; reflexivity).
  split; [exact E |].
  destruct (pair_finder_contract shared_county_log 4 ltac:(lia))
    as (_ & _ & Hpost & _).
  rewrite E in Hpost. exact Hpost.
Defined.




(** C10: from a record of the candidate pair [_trace_pattern] returns a
    [last_valid_idx] between [start_idx] and the last index of the
    sequence; so every period found at a cursor ends at or after it, each
    iteration of the driving loop moves the cursor forward, and
    [find_county_line_periods] returns on every input: the iterations
    granted suffice, and more of them change nothing. *)
Theorem driving_loop_terminates (self : Settings) (qsos : list QSORecord) :
  (forall start a b q,
      0 <= start -> getitem qsos start = Done q ->
      in_pair (tx_county q) a b = true ->
      exists lv alts,
        _trace_pattern self qsos start a b = Done (lv, alts) /\
        start <= lv < len qsos) /\
  (forall i, 0 <= i ->
             exists found,
               _detect_period_from self qsos i = Done found /\
               (forall p, found = Some p -> i <= end_idx p) /\
               i < next_cursor end_idx i found /\
               forall fuel periods,
                 i < len qsos - min_alternations self ->
                 while_loop end_idx (_detect_period_from self qsos)
                            (len qsos - min_alternations self)
                            (S fuel) i periods =
                 while_loop end_idx (_detect_period_from self qsos)
                            (len qsos - min_alternations self)
                            fuel (next_cursor end_idx i found)
                            (periods ++ appended found)) /\
  (exists periods,
      find_county_line_periods self qsos = Some (Done periods) /\
      (forall p, In p periods -> start_idx p <= end_idx p) /\
      forall fuel,
        (Z.to_nat (len qsos - min_alternations self) <= fuel)%nat ->
        find_county_line_periods_fuel fuel self qsos = Some (Done periods)).
Proof.
  split; [| split].
  - intros start a b q Hs Eq Hin.
    pose proof (trace_pattern_in_pair qsos a b self start q Hs Eq Hin) as Hp.
    destruct (_trace_pattern self qsos start a b) as [[lv alts] | e];
      [| contradiction].
    exists lv, alts. cbn in Hp. split; [reflexivity | lia].
  - intros i Hi. destruct (detect_total self qsos i Hi)
      as (found & Ed & Hp & Hnext).
    exists found. split; [assumption |]. split.
    + intros p Hfound. apply (Hp p Hfound).
    + split; [assumption |]. intros fuel periods Hlt.
      now apply while_loop_step.
  - destruct (find_total self qsos) as [periods E].
    exists periods. split; [assumption |]. split.
    + intros p Hin. pose proof (period_counts self qsos periods E p Hin). lia.
    + intros fuel Hfuel. now rewrite find_fuel_enough.
Qed.

Lemma driving_loop_terminates_witness :
  exists lv alts,
    _trace_pattern default_settings clean_log 0 "A" "B" = Done (lv, alts) /\
    0 <= lv < len clean_log.
Proof.
  eapply (proj1 (driving_loop_terminates default_settings clean_log)
                0 "A" "B").
  - lia.
  - vm_compute. reflexivity.
  - reflexivity.
Defined.

End Spec.

(** ** The detector reads the county column only *)

Section CountyColumn.

Context {R R' : Type} `{QSOLike R} `{QSOLike R'}.

Lemma getitem_map {A B : Type} (f : A -> B) (l : list A) (i : Z) :
  getitem (map f l) i =
  match getitem l i with
  | Done x => Done (f x)
  | Raise e => Raise e
  end.
Proof.
  unfold getitem, len. rewrite length_map.
  destruct (if i <? 0 then i + Z.of_nat (List.length l) else i) as [| j | j];
    cbn [Z.ltb Z.compare]; try reflexivity;
    rewrite nth_error_map;
    now destruct (nth_error l _).
Qed.

Lemma slice_map {A B : Type} (f : A -> B) (l : list A) (lo hi : Z) :
  slice (map f l) lo hi = map f (slice l lo hi).
Proof.
  unfold slice, clamp, len. rewrite length_map.
  now rewrite skipn_map, firstn_map.
Qed.

Variables (qsos : list R) (qsos' : list R').
Hypothesis same_column : county_column qsos = county_column qsos'.

Lemma column_len : len qsos = len qsos'.
Proof.
  unfold len. f_equal.
  rewrite <- (length_map tx_county qsos), <- (length_map tx_county qsos').
  now f_equal.
Qed.

Lemma column_getitem (i : Z) :
  match getitem qsos i, getitem qsos' i with
  | Done q, Done q' => tx_county q = tx_county q'
  | Raise e, Raise e' => e = e'
  | _, _ => False
  end.
Proof.
  pose proof (getitem_map tx_county qsos i) as E.
  pose proof (getitem_map tx_county qsos' i) as E'.
  fold (county_column qsos) in E. fold (county_column qsos') in E'.
  rewrite same_column in E. rewrite E' in E.
  destruct (getitem qsos i), (getitem qsos' i); congruence.
Qed.

Lemma column_trace_loop (self : Settings) (a b : string) :
  forall n i expected alts cs lv,
    trace_loop self qsos a b n i expected alts cs lv =
    trace_loop self qsos' a b n i expected alts cs lv.
Proof.
  induction n as [| n IH]; intros i expected alts cs lv; [reflexivity |].
  cbn [trace_loop]. pose proof (column_getitem i) as Hi.
  destruct (getitem qsos i) as [q | e], (getitem qsos' i) as [q' | e'];
    try contradiction; cbn [bind]; [| congruence].
  rewrite Hi. now rewrite !IH.
Qed.

Lemma column_trace_pattern (self : Settings) (start : Z) (a b : string) :
  _trace_pattern self qsos start a b = _trace_pattern self qsos' start a b.
Proof.
  unfold _trace_pattern. pose proof (column_getitem start) as Hs.
  destruct (getitem qsos start) as [q | e], (getitem qsos' start) as [q' | e'];
    try contradiction; cbn [bind]; [| congruence].
  rewrite Hs, column_len. now rewrite column_trace_loop.
Qed.

End CountyColumn.

Section CountyColumnWindow.

Context {R R' : Type} `{QSOLike R} `{QSOLike R'}.

Lemma column_pair_loop (w : list R) (w' : list R') :
  county_column w = county_column w' ->
  forall n i, pair_loop w n i = pair_loop w' n i.
Proof.
  intros Hc. induction n as [| n IH]; intros i; [reflexivity |].
  cbn [pair_loop].
  pose proof (column_getitem w w' Hc i) as Ea.
  pose proof (column_getitem w w' Hc (i + 1)) as Eb.
  pose proof (column_getitem w w' Hc (i + 2)) as Ec.
  destruct (getitem w i) as [qa | e], (getitem w' i) as [qa' | e'];
    try contradiction; cbn [bind]; [| congruence].
  destruct (getitem w (i + 1)) as [qb | e], (getitem w' (i + 1)) as [qb' | e'];
    try contradiction; cbn [bind]; [| congruence].
  rewrite Ea, Eb, (column_len w w' Hc), IH.
  destruct (String.eqb (tx_county qa') (tx_county qb')); [reflexivity |].
  destruct (i + 2 <? len w'); [| reflexivity].
  destruct (getitem w (i + 2)) as [qc | e], (getitem w' (i + 2)) as [qc' | e'];
    try contradiction; cbn [bind]; [| congruence].
  now rewrite Ec.
Qed.

Lemma column_scan_slice (qsos : list R) (qsos' : list R') (start : Z) :
  county_column qsos = county_column qsos' ->
  county_column (scan_slice qsos start) =
  county_column (scan_slice qsos' start).
Proof.
  intros Hc. unfold scan_slice, county_column.
  rewrite <- !slice_map. rewrite (column_len qsos qsos' Hc).
  unfold county_column in Hc. now rewrite Hc.
Qed.

Lemma column_find_pair (qsos : list R) (qsos' : list R') (start : Z) :
  county_column qsos = county_column qsos' ->
  _find_alternating_pair (scan_slice qsos start) =
  _find_alternating_pair (scan_slice qsos' start).
Proof.
  intros Hc. pose proof (column_scan_slice qsos qsos' start Hc) as Hw.
  unfold _find_alternating_pair.
  rewrite (column_len _ _ Hw). now apply column_pair_loop.
Qed.

End CountyColumnWindow.

(** ** Two runs of the driving loop side by side *)

Section TwoLoops.

Context {P Q : Type} (end_p : P -> Z) (end_q : Q -> Z)
        (detect_p : Z -> result (option P))
        (detect_q : Z -> result (option Q))
        (bound : Z) (related : P -> Q -> Prop).

Hypothesis related_end : forall p q, related p q -> end_p p = end_q q.

Hypothesis related_detect :
  forall i, match detect_p i, detect_q i with
            | Done (Some p), Done (Some q) => related p q
            | Done None, Done None => True
            | Raise e, Raise e' => e = e'
            | _, _ => False
            end.

Lemma while_loop_related :
  forall fuel i ps qs,
    Forall2 related ps qs ->
    match while_loop end_p detect_p bound fuel i ps,
          while_loop end_q detect_q bound fuel i qs with
    | Some (Done ps'), Some (Done qs') => Forall2 related ps' qs'
    | Some (Raise e), Some (Raise e') => e = e'
    | None, None => True
    | _, _ => False
    end.
Proof.
  induction fuel as [| fuel IH]; intros i ps qs Hrel; cbn [while_loop].
  - destruct (i <? bound); [exact I | assumption].
  - destruct (i <? bound); [| assumption].
    pose proof (related_detect i) as Hd.
    destruct (detect_p i) as [[p |] | e], (detect_q i) as [[q |] | e'];
      try contradiction.
    + rewrite (related_end p q Hd). apply IH.
      apply Forall2_app; [assumption |]. now constructor.
    + now apply IH.
    + assumption.
Qed.

End TwoLoops.

(** ** Further properties of the detector *)

Module Further.

Import CountyLineDetector Examples Coverage Agreement DetectorFacts.

#[local] Existing Instance CountyLinePeriodGenerator.QSORecord_QSOLike.

Lemma getitem_same_map {A A' B : Type} (f : A -> B) (f' : A' -> B)
      (l : list A) (l' : list A') (i : Z) :
  map f l = map f' l' ->
  match getitem l i, getitem l' i with
  | Done x, Done x' => f x = f' x'
  | Raise e, Raise e' => e = e'
  | _, _ => False
  end.
Proof.
  intros Hmap. pose proof (getitem_map f l i) as E.
  rewrite Hmap, getitem_map in E.
  destruct (getitem l i), (getitem l' i); congruence.
Qed.

Lemma Forall2_map_eq {A B : Type} (f : A -> B) (l : list A) (l' : list B) :
  Forall2 (fun x y => y = f x) l l' -> l' = map f l.
Proof. induction 1; simpl; congruence. Qed.

Lemma Forall2_same_image {A B : Type} (f : A -> B) (l l' : list A) :
  Forall2 (fun x y => f x = f y) l l' -> map f l = map f l'.
Proof. induction 1; simpl; congruence. Qed.

(** At every cursor the two scripts find the same thing. *)
Lemma detect_agree (isoformat : Z -> string) (self : Settings)
      (d : list QSORecord) (g : list CountyLinePeriodGenerator.QSORecord)
      (i : Z) :
  county_column d = county_column g ->
  map timestamp d = map timestamp g ->
  match _detect_period_from self d i,
        CountyLinePeriodGenerator._detect_period_from isoformat self g i with
  | Done (Some p), Done (Some q) => q = as_generator_period isoformat p
  | Done None, Done None => True
  | Raise e, Raise e' => e = e'
  | _, _ => False
  end.
Proof.
  intros Hc Ht.
  unfold _detect_period_from, CountyLinePeriodGenerator._detect_period_from.
  rewrite (column_len d g Hc), (column_find_pair d g i Hc).
  destruct (i + min_alternations self >=? len g); [exact I |].
  destruct (_find_alternating_pair (scan_slice g i)) as [[[a b] |] | e];
    cbn [bind]; try easy.
  rewrite (column_trace_pattern d g Hc).
  destruct (_trace_pattern self g i a b) as [[lv alts] | e];
    cbn [bind]; [| reflexivity].
  destruct (alts >=? min_alternations self); [| exact I].
  pose proof (getitem_same_map timestamp timestamp d g i Ht) as Hs.
  pose proof (getitem_same_map timestamp timestamp d g lv Ht) as He.
  destruct (getitem d i) as [qs | e], (getitem g i) as [qs' | e'];
    try contradiction; cbn [bind]; [| assumption].
  destruct (getitem d lv) as [qe | e], (getitem g lv) as [qe' | e'];
    try contradiction; cbn [bind]; [| assumption].
  unfold as_generator_period. cbn in Hs, He |- *. now rewrite Hs, He.
Qed.

(** Logs with one county column are treated alike at every cursor. *)
Lemma detect_outline (self : Settings) (qsos qsos' : list QSORecord) (i : Z) :
  county_column qsos = county_column qsos' ->
  match _detect_period_from self qsos i, _detect_period_from self qsos' i with
  | Done (Some p), Done (Some p') => outline p = outline p'
  | Done None, Done None => True
  | Raise e, Raise e' => e = e'
  | _, _ => False
  end.
Proof.
  intros Hc. unfold _detect_period_from.
  rewrite (column_len qsos qsos' Hc), (column_find_pair qsos qsos' i Hc).
  destruct (i + min_alternations self >=? len qsos'); [exact I |].
  destruct (_find_alternating_pair (scan_slice qsos' i)) as [[[a b] |] | e];
    cbn [bind]; try easy.
  rewrite (column_trace_pattern qsos qsos' Hc).
  destruct (_trace_pattern self qsos' i a b) as [[lv alts] | e];
    cbn [bind]; [| reflexivity].
  destruct (alts >=? min_alternations self); [| exact I].
  pose proof (column_getitem qsos qsos' Hc i) as Hs.
  pose proof (column_getitem qsos qsos' Hc lv) as He.
  destruct (getitem qsos i) as [qs | e], (getitem qsos' i) as [qs' | e'];
    try contradiction; cbn [bind]; [| assumption].
  destruct (getitem qsos lv) as [qe | e], (getitem qsos' lv) as [qe' | e'];
    try contradiction; cbn [bind]; [| assumption].
  reflexivity.
Qed.

(** X1: every period that [find_county_line_periods] returns lies inside
    the log, has at least [min_alternations] and at most [qso_count]
    alternations, and carries as [start_time] and [end_time] the timestamps
    of the records at its [start_idx] and [end_idx]. *)
Theorem emitted_period_within_log (self : Settings) (qsos : list QSORecord)
        (periods : list CountyLinePeriod) (p : CountyLinePeriod) :
  find_county_line_periods self qsos = Some (Done periods) ->
  In p periods ->
  0 <= start_idx p <= end_idx p /\ end_idx p < len qsos /\
  min_alternations self <= alternations p <= qso_count p /\
  (exists qs, getitem qsos (start_idx p) = Done qs /\
              start_time p = timestamp qs) /\
  (exists qe, getitem qsos (end_idx p) = Done qe /\
              end_time p = timestamp qe).
Proof.
  intros E Hin. destruct (find_emitted self qsos periods E p Hin)
    as (i & Hi & Ed).
  pose proof (detect_post self qsos i (proj1 Hi)) as Hpost.
  rewrite Ed in Hpost.
  destruct Hpost as (Hst & Hend & Hcount & Hmin & Halts & _ & _ & _ & Hqs & Hqe).
  rewrite Hst. repeat split; try lia; assumption.
Qed.

Lemma emitted_period_within_log_witness :
  0 <= 4 <= 9 /\ 9 < len shared_county_log /\ 3 <= 4 <= 6.
Proof.
  pose proof (emitted_period_within_log
                default_settings shared_county_log
                [period_over "A" "B" 0 3 4; period_over "B" "C" 4 9 4]
                (period_over "B" "C" 4 9 4)
                ltac:(vm_compute; reflexivity)
                ltac:(right; left; reflexivity)) as (H1 & H2 & H3 & _).
  exact (conj H1 (conj H2 H3)).
Defined.

(** X2: the periods depend on the county column alone.  Two logs with the
    same sequence of [tx_county] values give period lists that agree in
    counties, indices, [qso_count] and [alternations]; only the two
    timestamps copied into a period can differ. *)
Theorem county_column_decides (self : Settings) (qsos qsos' : list QSORecord) :
  county_column qsos = county_column qsos' ->
  exists periods periods',
    find_county_line_periods self qsos = Some (Done periods) /\
    find_county_line_periods self qsos' = Some (Done periods') /\
    map outline periods = map outline periods'.
Proof.
  intros Hc.
  destruct (find_total self qsos) as [periods E].
  destruct (find_total self qsos') as [periods' E'].
  exists periods, periods'. split; [assumption |]. split; [assumption |].
  unfold find_county_line_periods, find_county_line_periods_fuel in E, E'.
  rewrite (column_len qsos qsos' Hc) in E.
  destruct (len qsos' <? min_alternations self + 1); [congruence |].
  pose proof (while_loop_related
                end_idx end_idx
                (_detect_period_from self qsos) (_detect_period_from self qsos')
                (len qsos' - min_alternations self)
                (fun p p' => outline p = outline p')
                ltac:(intros p p' [= _ _ _ He _ _]; exact He)
                (fun i => detect_outline self qsos qsos' i Hc)
                (Z.to_nat (len qsos' - min_alternations self)) 0 [] []
                (Forall2_nil _)) as Hrel.
  rewrite E, E' in Hrel. now apply Forall2_same_image.
Qed.

Lemma county_column_decides_witness :
  exists periods periods',
    find_county_line_periods default_settings clean_log =
      Some (Done periods) /\
    find_county_line_periods default_settings backwards_log =
      Some (Done periods') /\
    map outline periods = map outline periods'.
Proof.
  apply (county_column_decides default_settings clean_log backwards_log).
  reflexivity.
Defined.

(** The loops of the two scripts run in step. *)
Lemma find_agree (isoformat : Z -> string) (self : Settings)
      (d : list QSORecord) (g : list CountyLinePeriodGenerator.QSORecord) :
  county_column d = county_column g ->
  map timestamp d = map timestamp g ->
  exists periods,
    find_county_line_periods self d = Some (Done periods) /\
    CountyLinePeriodGenerator.find_county_line_periods isoformat self g =
    Some (Done (map (as_generator_period isoformat) periods)).
Proof.
  intros Hc Ht. destruct (find_total self d) as [periods E].
  exists periods. split; [assumption |].
  unfold find_county_line_periods, find_county_line_periods_fuel in E.
  unfold CountyLinePeriodGenerator.find_county_line_periods,
    CountyLinePeriodGenerator.find_county_line_periods_fuel.
  rewrite (column_len d g Hc) in E.
  destruct (len g <? min_alternations self + 1).
  - injection E as <-. reflexivity.
  - pose proof (while_loop_related
                  end_idx CountyLinePeriodGenerator.end_idx
                  (_detect_period_from self d)
                  (CountyLinePeriodGenerator._detect_period_from
                     isoformat self g)
                  (len g - min_alternations self)
                  (fun p q => q = as_generator_period isoformat p)
                  ltac:(intros p q ->; reflexivity)
                  (fun i => detect_agree isoformat self d g i Hc Ht)
                  (Z.to_nat (len g - min_alternations self)) 0 [] []
                  (Forall2_nil _)) as Hrel.
    rewrite E in Hrel.
    destruct (while_loop CountyLinePeriodGenerator.end_idx _ _ _ _ _)
      as [[qs | e] |]; try contradiction.
    apply Forall2_map_eq in Hrel. now subst qs.
Qed.

(** X3: the two copies of the detector agree.  On logs with the same
    counties and timestamps, [CountyLinePeriodGenerator] returns the
    periods of [CountyLineDetector], one for one, with the two counties
    sorted into [counties] and the two timestamps passed through
    [isoformat]. *)
Theorem implementations_agree (isoformat : Z -> string) (self : Settings)
        (d : list QSORecord) (g : list CountyLinePeriodGenerator.QSORecord) :
  county_column d = county_column g ->
  map timestamp d = map timestamp g ->
  exists periods,
    find_county_line_periods self d = Some (Done periods) /\
    CountyLinePeriodGenerator.find_county_line_periods isoformat self g =
    Some (Done (map (as_generator_period isoformat) periods)).
Proof. apply find_agree. Qed.

Lemma implementations_agree_witness :
  exists periods,
    find_county_line_periods default_settings (map as_detector_record generator_log)
    = Some (Done periods) /\
    CountyLinePeriodGenerator.find_county_line_periods
      seconds_text default_settings generator_log =
    Some (Done (map (as_generator_period seconds_text) periods)).
Proof.
  apply (implementations_agree seconds_text default_settings
                               (map as_detector_record generator_log)
                               generator_log);
    reflexivity.
Defined.

(** *** What lies inside a trace and what follows it *)

Section TraceExtent.

Context {R : Type} `{QSOLike R}.

Variables (qsos : list R) (a b : string).

(** The records from the loop's index up to the index returned are all of
    the pair. *)
Lemma trace_loop_members (self : Settings) :
  forall n i expected alts cs lv,
    0 <= i -> i + Z.of_nat n <= len qsos -> 0 <= cs -> lv < i ->
    match trace_loop self qsos a b n i expected alts cs lv with
    | Done (lv', _) =>
        forall k, i <= k <= lv' ->
                  exists q, getitem qsos k = Done q /\
                            in_pair (tx_county q) a b = true
    | Raise _ => False
    end.
Proof.
  induction n as [| n IH]; intros i expected alts cs lv Hi Hn Hcs Hlv.
  - simpl. intros k Hk. lia.
  - cbn [trace_loop].
    destruct (getitem_in_range qsos i) as [q Eq]; [lia |].
    rewrite Eq. cbn [bind].
    destruct (in_pair (tx_county q) a b) eqn:Hin; cbn [negb];
      [| intros k Hk; lia].
    assert (Hmore : forall r : result (Z * Z),
               match r with
               | Done (lv', _) =>
                   forall k, i + 1 <= k <= lv' ->
                             exists q, getitem qsos k = Done q /\
                                       in_pair (tx_county q) a b = true
               | Raise _ => False
               end ->
               match r with
               | Done (lv', _) =>
                   forall k, i <= k <= lv' ->
                             exists q, getitem qsos k = Done q /\
                                       in_pair (tx_county q) a b = true
               | Raise _ => False
               end).
    { intros [[lv' alts'] | e] Hr; [| assumption].
      intros k Hk. destruct (Z.eq_dec k i) as [-> | Hne].
      - now exists q.
      - apply Hr. lia. }
    destruct (String.eqb (tx_county q) expected).
    + apply Hmore. apply IH; lia.
    + destruct (Z.gtb_spec (cs + 1) (max_consecutive_same self)).
      * intros k Hk. lia.
      * apply Hmore. apply IH; lia.
Qed.

(** A record of the pair that is not what the flip after [c0] expects
    repeats [c0]. *)
Lemma noise_repeats (c c0 : string) :
  a <> b ->
  in_pair c a b = true -> in_pair c0 a b = true ->
  c <> flipped a b c0 -> c = c0.
Proof.
  unfold in_pair, flipped. intros Hab Hc Hc0 Hne.
  apply orb_true_iff in Hc, Hc0.
  rewrite !String.eqb_eq in Hc, Hc0.
  destruct (String.eqb_spec c0 a) as [-> | Hc0a].
  - destruct Hc as [-> | ->]; [reflexivity | contradiction].
  - destruct Hc0 as [-> | ->]; [contradiction |].
    destruct Hc as [-> | ->]; [contradiction | reflexivity].
Qed.

(** Where the loop stops: at the end of the range, before a record of
    neither county, or before a repeat of the record it stops at. *)
Lemma trace_loop_stop (self : Settings) :
  a <> b ->
  forall n i expected alts cs lv,
    0 <= i -> i + Z.of_nat n <= len qsos -> 0 <= cs -> lv = i - 1 ->
    alternation_at qsos a b expected (lv - cs) ->
    noise_run qsos a b expected (lv - cs) lv ->
    match trace_loop self qsos a b n i expected alts cs lv with
    | Done (lv', _) =>
        lv' = i + Z.of_nat n - 1 \/
        exists q, getitem qsos (lv' + 1) = Done q /\
                  (in_pair (tx_county q) a b = false \/
                   exists q0, getitem qsos lv' = Done q0 /\
                              tx_county q = tx_county q0)
    | Raise _ => False
    end.
Proof.
  intros Hab.
  induction n as [| n IH]; intros i expected alts cs lv Hi Hn Hcs Hlv Halt Hrun.
  - simpl. left. lia.
  - cbn [trace_loop].
    destruct (getitem_in_range qsos i) as [q Eq]; [lia |].
    rewrite Eq. cbn [bind].
    destruct (in_pair (tx_county q) a b) eqn:Hin; cbn [negb].
    + destruct (String.eqb_spec (tx_county q) expected) as [Hexp | Hexp].
      * specialize (IH (i + 1) (flipped a b expected) (alts + 1) 0 i).
        replace (i + 1 + Z.of_nat n - 1) with (i + Z.of_nat (S n) - 1) in IH
          by lia.
        apply IH; try lia.
        -- exists q. replace (i - 0) with i by lia. subst expected.
           now repeat split.
        -- intros k Hk. lia.
      * destruct (Z.gtb_spec (cs + 1) (max_consecutive_same self)).
        -- right. destruct Halt as (q0 & Eq0 & Hin0 & Hflip).
           replace (i - (cs + 1)) with (lv - cs) by lia.
           assert (exists q1,
                      getitem qsos (lv - cs + 1) = Done q1 /\
                      in_pair (tx_county q1) a b = true /\
                      tx_county q1 <> expected) as (q1 & Eq1 & Hin1 & Hne1).
           { destruct (Z.eq_dec (lv - cs + 1) i) as [-> | Hne].
             - now exists q.
             - apply Hrun. lia. }
           exists q1. split; [assumption |]. right.
           exists q0. split; [assumption |].
           apply noise_repeats; try assumption. congruence.
        -- specialize (IH (i + 1) expected alts (cs + 1) i).
           replace (i + 1 + Z.of_nat n - 1) with (i + Z.of_nat (S n) - 1) in IH
             by lia.
           apply IH; try lia.
           ++ now replace (i - (cs + 1)) with (lv - cs) by lia.
           ++ replace (i - (cs + 1)) with (lv - cs) by lia.
              intros k Hk. destruct (Z.eq_dec k i) as [-> | Hne].
              ** now exists q.
              ** apply Hrun. lia.
    + right. exists q. replace (lv + 1) with i by lia.
      split; [assumption |]. now left.
Qed.

Lemma trace_pattern_members (self : Settings) (start : Z) (q : R) :
  0 <= start ->
  getitem qsos start = Done q ->
  in_pair (tx_county q) a b = true ->
  match _trace_pattern self qsos start a b with
  | Done (lv', _) =>
      forall k, start <= k <= lv' ->
                exists q', getitem qsos k = Done q' /\
                           in_pair (tx_county q') a b = true
  | Raise _ => False
  end.
Proof.
  intros Hs Eq Hin. rewrite (trace_pattern_first qsos a b self start q)
    by assumption.
  pose proof (getitem_Done_range qsos start q Hs Eq) as Hlt.
  pose proof (trace_loop_members
                self (Z.to_nat (len qsos - start) - 1) (start + 1)
                (flipped a b (tx_county q)) 1 0 start
                ltac:(lia) ltac:(lia) ltac:(lia) ltac:(lia)) as Hm.
  destruct (trace_loop self qsos a b _ _ _ _ _ _) as [[lv' alts'] | e];
    [| assumption].
  intros k Hk. destruct (Z.eq_dec k start) as [-> | Hne].
  - now exists q.
  - apply Hm. lia.
Qed.

Lemma trace_pattern_stop (self : Settings) (start : Z) (q : R) :
  a <> b ->
  0 <= start ->
  getitem qsos start = Done q ->
  in_pair (tx_county q) a b = true ->
  match _trace_pattern self qsos start a b with
  | Done (lv', _) =>
      lv' = len qsos - 1 \/
      exists q', getitem qsos (lv' + 1) = Done q' /\
                 (in_pair (tx_county q') a b = false \/
                  exists q0, getitem qsos lv' = Done q0 /\
                             tx_county q' = tx_county q0)
  | Raise _ => False
  end.
Proof.
  intros Hab Hs Eq Hin. rewrite (trace_pattern_first qsos a b self start q)
    by assumption.
  pose proof (getitem_Done_range qsos start q Hs Eq) as Hlt.
  pose proof (trace_loop_stop
                self Hab (Z.to_nat (len qsos - start) - 1) (start + 1)
                (flipped a b (tx_county q)) 1 0 start
                ltac:(lia) ltac:(lia) ltac:(lia) ltac:(lia)) as Hstop.
  replace (start + 1 + Z.of_nat (Z.to_nat (len qsos - start) - 1) - 1)
    with (len qsos - 1) in Hstop by lia.
  apply Hstop.
  - exists q. replace (start - 0) with start by lia. now repeat split.
  - intros k Hk. lia.
Qed.

End TraceExtent.

(** A period with an alternation was traced from a record of its pair. *)
Lemma emitted_trace (self : Settings) (qsos : list QSORecord)
      (periods : list CountyLinePeriod) (p : CountyLinePeriod) :
  find_county_line_periods self qsos = Some (Done periods) ->
  In p periods ->
  1 <= alternations p ->
  0 <= start_idx p /\ county_a p <> county_b p /\
  _trace_pattern self qsos (start_idx p) (county_a p) (county_b p) =
    Done (end_idx p, alternations p) /\
  exists qs, getitem qsos (start_idx p) = Done qs /\
             in_pair (tx_county qs) (county_a p) (county_b p) = true.
Proof.
  intros E Hin Halts. destruct (find_emitted self qsos periods E p Hin)
    as (i & Hi & Ed).
  pose proof (detect_post self qsos i (proj1 Hi)) as Hpost.
  rewrite Ed in Hpost.
  destruct Hpost as (Hst & _ & _ & _ & _ & Hne & _ & Et & (qs & Eqs & _) & _).
  rewrite Hst. repeat split; try lia; try assumption.
  exists qs. split; [assumption |].
  destruct (in_pair (tx_county qs) (county_a p) (county_b p)) eqn:Hpair;
    [reflexivity |].
  rewrite (trace_pattern_off_pair qsos _ _ self i qs Eqs Hpair) in Et.
  injection Et as _ Hz. lia.
Qed.

(** X4: a period with at least one alternation, as every period is under a
    positive [min_alternations], holds records of its two counties only:
    every record from [start_idx] to [end_idx] carries [county_a] or
    [county_b]. *)
Theorem period_records_of_pair (self : Settings) (qsos : list QSORecord)
        (periods : list CountyLinePeriod) (p : CountyLinePeriod) (k : Z) :
  find_county_line_periods self qsos = Some (Done periods) ->
  In p periods ->
  1 <= alternations p ->
  start_idx p <= k <= end_idx p ->
  exists q, getitem qsos k = Done q /\
            (tx_county q = county_a p \/ tx_county q = county_b p).
Proof.
  intros E Hin Halts Hk.
  destruct (emitted_trace self qsos periods p E Hin Halts)
    as (Hs & _ & Et & qs & Eqs & Hpair).
  pose proof (trace_pattern_members qsos (county_a p) (county_b p) self
                                    (start_idx p) qs Hs Eqs Hpair) as Hm.
  rewrite Et in Hm. destruct (Hm k Hk) as (q & Eq & Hq).
  exists q. split; [assumption |].
  unfold in_pair in Hq. apply orb_true_iff in Hq.
  now rewrite !String.eqb_eq in Hq.
Qed.

Lemma period_records_of_pair_witness :
  exists q, getitem shared_county_log 6 = Done q /\
            (tx_county q = "B" \/ tx_county q = "C").
Proof.
  apply (period_records_of_pair
           default_settings shared_county_log
           [period_over "A" "B" 0 3 4; period_over "B" "C" 4 9 4]
           (period_over "B" "C" 4 9 4) 6).
  - vm_compute. reflexivity.
  - right. left. reflexivity.
  - vm_compute. discriminate.
  - vm_compute. split; discriminate.
Defined.

(** X5: a period with at least one alternation is not cut while the
    alternation goes on.  It ends with the last record of the log, or the
    record after it is of neither county, or the record after it repeats
    the county of the period's last record. *)
Theorem period_not_cut_short (self : Settings) (qsos : list QSORecord)
        (periods : list CountyLinePeriod) (p : CountyLinePeriod) :
  find_county_line_periods self qsos = Some (Done periods) ->
  In p periods ->
  1 <= alternations p ->
  end_idx p = len qsos - 1 \/
  exists q, getitem qsos (end_idx p + 1) = Done q /\
            ((tx_county q <> county_a p /\ tx_county q <> county_b p) \/
             exists q0, getitem qsos (end_idx p) = Done q0 /\
                        tx_county q = tx_county q0).
Proof.
  intros E Hin Halts.
  destruct (emitted_trace self qsos periods p E Hin Halts)
    as (Hs & Hne & Et & qs & Eqs & Hpair).
  pose proof (trace_pattern_stop qsos (county_a p) (county_b p) self
                                 (start_idx p) qs Hne Hs Eqs Hpair) as Hstop.
  rewrite Et in Hstop. destruct Hstop as [Hend | (q & Eq & Hq)];
    [now left |].
  right. exists q. split; [assumption |].
  destruct Hq as [Hout | Hrep]; [left | now right].
  unfold in_pair in Hout. apply orb_false_iff in Hout.
  now rewrite !String.eqb_neq in Hout.
Qed.

Lemma period_not_cut_short_witness :
  3 = len shared_county_log - 1 \/
  exists q, getitem shared_county_log (3 + 1) = Done q /\
            ((tx_county q <> "A" /\ tx_county q <> "B") \/
             exists q0, getitem shared_county_log 3 = Done q0 /\
                        tx_county q = tx_county q0).
Proof.
  apply (period_not_cut_short
           default_settings shared_county_log
           [period_over "A" "B" 0 3 4; period_over "B" "C" 4 9 4]
           (period_over "A" "B" 0 3 4)).
  - vm_compute. reflexivity.
  - left. reflexivity.
  - vm_compute. discriminate.
Defined.

Lemma total_qsos_snoc (periods : list CountyLinePeriod) (p : CountyLinePeriod) :
  total_qsos (periods ++ [p]) = total_qsos periods + qso_count p.
Proof. unfold total_qsos. now rewrite fold_left_app. Qed.

(** X6: the periods of one log do not hold more records than the log: the
    sum of their [qso_count] is at most [len(qsos)], and at least the
    number of periods, every period holding a record. *)
Theorem total_qsos_bounded (self : Settings) (qsos : list QSORecord)
        (periods : list CountyLinePeriod) :
  find_county_line_periods self qsos = Some (Done periods) ->
  len periods <= total_qsos periods <= len qsos.
Proof.
  unfold find_county_line_periods, find_county_line_periods_fuel.
  pose proof (len_nonneg qsos) as Hlen.
  destruct (len qsos <? min_alternations self + 1).
  - intros [= <-]. cbn. lia.
  - intros E.
    destruct (while_loop_invariant
                end_idx (_detect_period_from self qsos)
                (len qsos - min_alternations self)
                (fun i ps =>
                   0 <= i /\
                   exists c, 0 <= c <= i /\ c <= len qsos /\
                             len ps <= total_qsos ps <= c))
      with (fuel := Z.to_nat (len qsos - min_alternations self))
           (i := 0) (periods := @nil CountyLinePeriod) (periods' := periods)
      as (i' & _ & _ & c & Hc & Hclen & Htotal).
    + intros i ps found (Hi & c & Hc & Hclen & Htotal) _ Ed.
      pose proof (detect_post self qsos i Hi) as Hpost. rewrite Ed in Hpost.
      destruct found as [p |]; cbn [next_cursor appended].
      * destruct Hpost as (Hst & Hend & Hcount & _).
        split; [lia |]. exists (end_idx p + 1).
        rewrite total_qsos_snoc. unfold len in *. rewrite length_app.
        cbn [List.length]. lia.
      * rewrite app_nil_r. split; [lia |]. exists c. lia.
    + split; [lia |]. exists 0. cbn. lia.
    + exact E.
    + lia.
Qed.

Lemma total_qsos_bounded_witness :
  len [period_over "A" "B" 0 3 4; period_over "B" "C" 4 9 4]
  <= total_qsos [period_over "A" "B" 0 3 4; period_over "B" "C" 4 9 4]
  <= len shared_county_log.
Proof.
  apply (total_qsos_bounded default_settings shared_county_log).
  vm_compute. reflexivity.
Defined.

Lemma triple_in_window (qsos : list QSORecord) (start : Z) (j : nat)
      (a b : string) :
  0 <= start ->
  triple_at (scan_slice qsos start) j a b ->
  triple_at qsos (Z.to_nat start + j) a b.
Proof.
  intros Hs. unfold triple_at, county_column.
  rewrite scan_slice_window by assumption.
  rewrite <- firstn_map, <- skipn_map, !nth_error_firstn, !nth_error_skipn.
  intros (Ha & Hb & Hc & Hne).
  destruct (Nat.ltb j 10); [| discriminate].
  destruct (Nat.ltb (S j) 10); [| discriminate].
  destruct (Nat.ltb (S (S j)) 10); [| discriminate].
  rewrite <- !Nat.add_succ_r. now repeat split.
Qed.

(** X7: a log in which no three consecutive records carry A, B, A with A
    different from B has no period, whatever the thresholds; so a log
    of one county and a log of fewer than three records have none. *)
Theorem no_triple_no_period (self : Settings) (qsos : list QSORecord) :
  (forall j, no_triple_at qsos j) ->
  find_county_line_periods self qsos = Some (Done []).
Proof.
  intros Hnone. destruct (find_total self qsos) as [periods E].
  rewrite E. f_equal. f_equal.
  destruct periods as [| p rest]; [reflexivity | exfalso].
  destruct (find_emitted self qsos (p :: rest) E p (or_introl eq_refl))
    as (i & Hi & Ed).
  pose proof (detect_post self qsos i (proj1 Hi)) as Hpost.
  rewrite Ed in Hpost.
  destruct Hpost as (_ & _ & _ & _ & _ & _ & Epair & _).
  apply find_alternating_pair_Some in Epair.
  destruct Epair as (j & Ht & _).
  apply (Hnone (Z.to_nat i + j)%nat (county_a p) (county_b p)).
  apply triple_in_window; [lia | assumption].
Qed.

Lemma no_triple_no_period_witness :
  find_county_line_periods default_settings (log ["A"; "A"; "A"; "A"]) =
  Some (Done []).
Proof.
  apply (no_triple_no_period default_settings (log ["A"; "A"; "A"; "A"])).
  intros j a b (Ha & Hb & _ & Hne).
  destruct j as [| [| [| [| j]]]]; cbn in Ha, Hb; congruence.
Defined.

(** *** A clean alternation *)

Lemma first_triple_wins {R : Type} `{QSOLike R} (w : list R) (a b : string) :
  triple_at w 0 a b -> _find_alternating_pair w = Done (Some (a, b)).
Proof.
  intros Ht. pose proof (find_alternating_pair_post w) as Hpost.
  destruct (_find_alternating_pair w) as [[[a' b'] |] | e]; simpl in Hpost.
  - destruct Hpost as (j & _ & Ht' & Hbefore).
    destruct j as [| j].
    + destruct Ht as (Ha & Hb & _), Ht' as (Ha' & Hb' & _). congruence.
    + exfalso. apply (Hbefore 0%nat ltac:(lia) a b Ht).
  - exfalso. destruct Ht as (Ha & Hb & Hc & Hne).
    assert (Hlen : nth_error (county_column w) 2 <> None) by congruence.
    apply nth_error_Some in Hlen. unfold county_column in Hlen.
    rewrite length_map in Hlen.
    apply (Hpost 0%nat ltac:(lia) a b). now repeat split.
  - contradiction.
Qed.

Lemma skipn_cons_inv {A : Type} (l : list A) (k : nat) (x : A) (tl : list A) :
  skipn k l = x :: tl -> nth_error l k = Some x /\ skipn (S k) l = tl.
Proof.
  revert l. induction k as [| k IH]; intros [| y l] E; simpl in E;
    try discriminate.
  - injection E as -> ->. now split.
  - apply IH. exact E.
Qed.

Lemma alternating_length (a b : string) (n : nat) :
  List.length (alternating a b n) = n.
Proof. revert a b. induction n; intros a b; simpl; congruence. Qed.

(** On what is left of a clean alternation every record is the expected
    one. *)
Lemma trace_loop_alternating {R : Type} `{QSOLike R} (self : Settings)
      (qsos : list R) (a b : string) :
  a <> b ->
  forall m k x y alts cs lv,
    (x = a /\ y = b) \/ (x = b /\ y = a) ->
    skipn k (county_column qsos) = alternating x y m ->
    trace_loop self qsos a b m (Z.of_nat k) x alts cs lv =
    Done (match m with O => lv | S _ => Z.of_nat k + Z.of_nat m - 1 end,
          alts + Z.of_nat m).
Proof.
  intros Hab. induction m as [| m IH]; intros k x y alts cs lv Hxy Hskip.
  - simpl. f_equal. f_equal. lia.
  - cbn [trace_loop]. cbn [alternating] in Hskip.
    apply skipn_cons_inv in Hskip. destruct Hskip as [Hk Hrest].
    unfold county_column in Hk. rewrite nth_error_map in Hk.
    rewrite getitem_of_nat.
    destruct (nth_error qsos k) as [q |]; [| discriminate].
    injection Hk as Hq. cbn [bind]. rewrite Hq.
    assert (Hin : in_pair x a b = true).
    { unfold in_pair. destruct Hxy as [[-> _] | [-> _]];
        rewrite String.eqb_refl; [reflexivity | apply orb_true_r]. }
    rewrite Hin. cbn [negb]. rewrite String.eqb_refl.
    assert (Hflip : (if String.eqb x a then b else a) = y).
    { destruct Hxy as [[-> ->] | [-> ->]].
      - now rewrite String.eqb_refl.
      - destruct (String.eqb_spec b a); congruence. }
    rewrite Hflip.
    replace (Z.of_nat k + 1) with (Z.of_nat (S k)) by lia.
    rewrite (IH (S k) y x (alts + 1) 0 (Z.of_nat k)); [| tauto | assumption].
    f_equal. f_equal; [destruct m |]; lia.
Qed.

Lemma detect_beyond (self : Settings) (qsos : list QSORecord) (i : Z) :
  len qsos <= i -> _detect_period_from self qsos i = Done None.
Proof.
  intros Hi. pose proof (len_nonneg qsos) as Hlen.
  unfold _detect_period_from.
  destruct (i + min_alternations self >=? len qsos); [reflexivity |].
  rewrite find_alternating_pair_short; [reflexivity |].
  pose proof (scan_slice_length qsos i ltac:(lia)). lia.
Qed.

(** X8: a log that alternates cleanly between two counties, A, B, A, B and
    so on over [n] records with [n] at least 3 and above
    [min_alternations], gives exactly one period; it spans the whole log
    and its [alternations] is [n], every record counted. *)
Theorem clean_alternation_one_period (self : Settings)
        (qsos : list QSORecord) (a b : string) (n : nat) :
  county_column qsos = alternating a b n ->
  a <> b ->
  (3 <= n)%nat ->
  min_alternations self < Z.of_nat n ->
  exists p,
    find_county_line_periods self qsos = Some (Done [p]) /\
    outline p = (a, b, 0, Z.of_nat n - 1, Z.of_nat n, Z.of_nat n).
Proof.
  intros Hcol Hab Hn Hmin.
  assert (Hlen : len qsos = Z.of_nat n).
  { unfold len. rewrite <- (length_map tx_county qsos).
    fold (county_column qsos). now rewrite Hcol, alternating_length. }
  (* the cursor 0 *)
  assert (Hpair : _find_alternating_pair (scan_slice qsos 0) =
                  Done (Some (a, b))).
  { apply first_triple_wins. unfold triple_at, county_column.
    rewrite scan_slice_window by lia. cbn [Z.to_nat skipn].
    rewrite <- firstn_map. fold (county_column qsos). rewrite Hcol.
    destruct n as [| [| [| n]]]; try lia. cbn. now repeat split. }
  assert (Htrace : _trace_pattern self qsos 0 a b =
                   Done (Z.of_nat n - 1, Z.of_nat n)).
  { destruct (getitem_in_range qsos 0) as [q0 Eq0]; [lia |].
    unfold _trace_pattern. rewrite Eq0. cbn [bind].
    assert (Hq0 : tx_county q0 = a).
    { pose proof (getitem_map tx_county qsos 0) as Hm.
      fold (county_column qsos) in Hm. rewrite Hcol, Eq0 in Hm.
      destruct n; [lia |]. cbn in Hm. injection Hm as Hm.
      symmetry. exact Hm. }
    rewrite Hq0. unfold in_pair at 1. rewrite String.eqb_refl. cbn [orb negb].
    rewrite Hlen. replace (Z.to_nat (Z.of_nat n - 0)) with n by lia.
    pose proof (trace_loop_alternating
                  self qsos a b Hab n 0%nat a b 0 0 0
                  (or_introl (conj eq_refl eq_refl)) Hcol) as Ht.
    change (Z.of_nat 0) with 0 in Ht. rewrite Ht.
    destruct n; [lia |]. f_equal; f_equal; lia. }
  destruct (getitem_in_range qsos 0) as [qs Eqs]; [lia |].
  destruct (getitem_in_range qsos (Z.of_nat n - 1)) as [qe Eqe]; [lia |].
  pose (p := {| start_time := timestamp qs; end_time := timestamp qe;
                county_a := a; county_b := b;
                start_idx := 0; end_idx := Z.of_nat n - 1;
                qso_count := Z.of_nat n - 1 - 0 + 1;
                alternations := Z.of_nat n |}).
  assert (Hdetect : _detect_period_from self qsos 0 = Done (Some p)).
  { unfold _detect_period_from. rewrite Hlen.
    destruct (Z.geb_spec (0 + min_alternations self) (Z.of_nat n)); [lia |].
    rewrite Hpair. cbn [bind]. rewrite Htrace. cbn [bind].
    destruct (Z.geb_spec (Z.of_nat n) (min_alternations self)); [| lia].
    rewrite Eqs, Eqe. reflexivity. }
  exists p. split.
  - destruct (find_total self qsos) as [periods E]. rewrite E.
    f_equal. f_equal.
    unfold find_county_line_periods, find_county_line_periods_fuel in E.
    rewrite Hlen in E.
    destruct (Z.ltb_spec (Z.of_nat n) (min_alternations self + 1)); [lia |].
    destruct (while_loop_invariant
                end_idx (_detect_period_from self qsos)
                (Z.of_nat n - min_alternations self)
                (fun i ps => (i = 0 /\ ps = []) \/
                             (Z.of_nat n <= i /\ ps = [p])))
      with (fuel := Z.to_nat (Z.of_nat n - min_alternations self))
           (i := 0) (periods := @nil CountyLinePeriod) (periods' := periods)
      as (i' & Hi' & [[-> _] | [_ ->]]); try lia; try reflexivity.
    + intros i ps found [[-> ->] | [Hi ->]] _ Ed.
      * rewrite Hdetect in Ed. injection Ed as <-. right.
        cbn. split; [lia | reflexivity].
      * rewrite detect_beyond in Ed by lia. injection Ed as <-. right.
        cbn. split; [lia | reflexivity].
    + now left.
    + exact E.
  - unfold outline, p. cbn. repeat f_equal. lia.
Qed.

Lemma clean_alternation_one_period_witness :
  exists p,
    find_county_line_periods default_settings clean_log = Some (Done [p]) /\
    outline p = ("A", "B", 0, 5 - 1, 5, 5).
Proof.
  apply (clean_alternation_one_period default_settings clean_log
                                      "A" "B" 5%nat).
  - reflexivity.
  - discriminate.
  - lia.
  - reflexivity.
Defined.

(** *** [generate_periods_table] *)

Lemma generator_find_total (isoformat : Z -> string) (self : Settings)
      (g : list CountyLinePeriodGenerator.QSORecord) :
  exists periods,
    CountyLinePeriodGenerator.find_county_line_periods isoformat self g =
    Some (Done periods).
Proof.
  destruct (find_agree isoformat self (map as_detector_record g) g)
    as (periods & _ & E).
  - unfold county_column. now rewrite map_map.
  - now rewrite map_map.
  - eexists. exact E.
Qed.

Lemma dict_get_set {V : Type} (d : list (string * V)) (k k' : string) (v : V) :
  dict_get (dict_set d k v) k' =
  if String.eqb k k' then Some v else dict_get d k'.
Proof.
  induction d as [| [k0 v0] d IH]; cbn [dict_set dict_get].
  - reflexivity.
  - destruct (String.eqb_spec k0 k) as [-> | Hne]; cbn [dict_get].
    + now destruct (String.eqb k k').
    + rewrite IH. destruct (String.eqb_spec k0 k') as [-> | Hne'];
        [| reflexivity].
      destruct (String.eqb_spec k k'); congruence.
Qed.

Lemma dict_set_keys {V : Type} (d : list (string * V)) (k k' : string)
      (v : V) :
  In k' (map fst (dict_set d k v)) <-> k' = k \/ In k' (map fst d).
Proof.
  induction d as [| [k0 v0] d IH]; cbn [dict_set map fst In].
  - intuition congruence.
  - destruct (String.eqb_spec k0 k) as [-> | Hne]; cbn [map fst In].
    + intuition congruence.
    + rewrite IH. intuition congruence.
Qed.

Lemma dict_set_NoDup {V : Type} (d : list (string * V)) (k : string) (v : V) :
  NoDup (map fst d) -> NoDup (map fst (dict_set d k v)).
Proof.
  induction d as [| [k0 v0] d IH]; cbn [dict_set map fst]; intros Hnd.
  - constructor; [intros [] | constructor].
  - inversion Hnd as [| ? ? Hnotin Hrest]; subst.
    destruct (String.eqb_spec k0 k) as [-> | Hne]; cbn [map fst].
    + now constructor.
    + constructor; [| now apply IH].
      rewrite dict_set_keys. intuition congruence.
Qed.

Section PeriodsTable.

Variables (isoformat : Z -> string)
          (load_mobile_qsos :
             string -> string -> list CountyLinePeriodGenerator.QSORecord)
          (self : Settings) (db_path : string).

Lemma periods_table_loop_spec (mobile_stations : list string) :
  forall table,
    exists table',
      CountyLinePeriodGenerator.periods_table_loop
        isoformat load_mobile_qsos self db_path mobile_stations table =
      Some (Done table') /\
      (NoDup (map fst table) -> NoDup (map fst table')) /\
      forall callsign,
        dict_get table' callsign =
        match CountyLinePeriodGenerator.find_county_line_periods
                isoformat self (load_mobile_qsos db_path callsign) with
        | Some (Done (p :: periods)) =>
            if existsb (String.eqb callsign) mobile_stations
            then Some (p :: periods)
            else dict_get table callsign
        | _ => dict_get table callsign
        end.
Proof.
  induction mobile_stations as [| station rest IH]; intros table.
  - exists table. split; [reflexivity |]. split; [tauto |].
    intros callsign. cbn [existsb].
    now destruct (CountyLinePeriodGenerator.find_county_line_periods _ _ _)
      as [[[| p periods] | e] |].
  - cbn [CountyLinePeriodGenerator.periods_table_loop].
    destruct (generator_find_total isoformat self
                                   (load_mobile_qsos db_path station))
      as [found Efound].
    rewrite Efound.
    destruct (IH (if truthy found then dict_set table station found
                  else table)) as (table' & Eloop & Hnd & Hget).
    exists table'. split; [exact Eloop |]. split.
    + intros Htable. apply Hnd.
      destruct (truthy found); [now apply dict_set_NoDup | assumption].
    + intros callsign. rewrite Hget. cbn [existsb].
      destruct (String.eqb_spec callsign station) as [-> | Hne].
      * rewrite Efound. destruct found as [| p found]; cbn [truthy orb].
        -- reflexivity.
        -- rewrite dict_get_set, String.eqb_refl.
           now destruct (existsb (String.eqb station) rest).
      * cbn [orb].
        assert (Hsame :
                  dict_get (if truthy found
                            then dict_set table station found else table)
                           callsign = dict_get table callsign).
        { destruct (truthy found); [| reflexivity].
          rewrite dict_get_set.
          destruct (String.eqb_spec station callsign); congruence. }
        now rewrite Hsame.
Qed.

(** X9: [generate_periods_table] lists a station exactly when it is among
    [mobile_stations] and the detector finds a period in its log, and lists
    it with the periods found; a station without periods is not in the
    table, and no callsign is listed twice. *)
Theorem periods_table_lookup (mobile_stations : list string) :
  exists table,
    CountyLinePeriodGenerator.generate_periods_table
      isoformat load_mobile_qsos self db_path mobile_stations =
    Some (Done table) /\
    NoDup (map fst table) /\
    forall callsign periods,
      dict_get table callsign = Some periods <->
      In callsign mobile_stations /\ periods <> [] /\
      CountyLinePeriodGenerator.find_county_line_periods
        isoformat self (load_mobile_qsos db_path callsign) =
      Some (Done periods).
Proof.
  destruct (periods_table_loop_spec mobile_stations [])
    as (table & Eloop & Hnd & Hget).
  exists table. split; [exact Eloop |]. split; [apply Hnd; constructor |].
  intros callsign periods. rewrite Hget. cbn [dict_get].
  destruct (generator_find_total isoformat self
                                 (load_mobile_qsos db_path callsign))
    as [found Efound].
  rewrite Efound.
  destruct (existsb (String.eqb callsign) mobile_stations) eqn:Hex.
  - apply existsb_exists in Hex. destruct Hex as (c & Hin & Hc).
    apply String.eqb_eq in Hc. subst c.
    destruct found as [| p found]; split.
    + discriminate.
    + intros (_ & Hne & [= <-]). contradiction.
    + intros [= <-]. repeat split; [assumption | discriminate].
    + intros (_ & _ & [= <-]). reflexivity.
  - assert (Hnotin : ~ In callsign mobile_stations).
    { intros Hin. assert (Htrue : existsb (String.eqb callsign)
                                          mobile_stations = true).
      { apply existsb_exists. exists callsign.
        split; [assumption | apply String.eqb_refl]. }
      congruence. }
    destruct found as [| p found]; split; try discriminate; tauto.
Qed.

End PeriodsTable.

(** A database of two stations: one on a county line, one in one county. *)
Lemma periods_table_lookup_witness :
  exists table,
    CountyLinePeriodGenerator.generate_periods_table
      seconds_text
      (fun _ callsign =>
         if String.eqb callsign "W2XYZ" then generator_log else [])
      default_settings "contest_qsos.db" ["K2ABC"; "W2XYZ"] =
    Some (Done table) /\
    NoDup (map fst table) /\
    dict_get table "K2ABC" = None.
Proof.
  destruct (periods_table_lookup
              seconds_text
              (fun _ callsign =>
                 if String.eqb callsign "W2XYZ" then generator_log else [])
              default_settings "contest_qsos.db" ["K2ABC"; "W2XYZ"])
    as (table & E & Hnd & Hget).
  exists table. split; [exact E |]. split; [exact Hnd |].
  destruct (dict_get table "K2ABC") as [periods |] eqn:Eget;
    [| reflexivity].
  apply Hget in Eget. destruct Eget as (_ & Hne & Efind).
  vm_compute in Efind. injection Efind as <-. contradiction.
Defined.

(** *** Repeats inside a trace *)

Section TraceRuns.

Context {R : Type} `{QSOLike R}.

Variables (qsos : list R) (a b : string).
Hypothesis pair_distinct_ab : a <> b.

Lemma flipped_differs (c : string) :
  in_pair c a b = true -> flipped a b c <> c.
Proof.
  unfold in_pair, flipped. intros Hc. apply orb_true_iff in Hc.
  rewrite !String.eqb_eq in Hc.
  destruct (String.eqb_spec c a) as [-> | Hca]; [congruence |].
  destruct Hc as [-> | ->]; congruence.
Qed.

Lemma flipped_in_pair (c : string) : in_pair (flipped a b c) a b = true.
Proof.
  unfold in_pair, flipped. destruct (String.eqb c a);
    rewrite String.eqb_refl; [apply orb_true_r | reflexivity].
Qed.

(** Every record that the loop takes in is at most the tolerance away from
    the last change of county, with repeats only in between. *)
Lemma trace_loop_runs (self : Settings) :
  forall n i expected alts cs lv c0,
    0 <= i -> i + Z.of_nat n <= len qsos ->
    0 <= cs <= Z.max 0 (max_consecutive_same self) ->
    lv = i - 1 ->
    in_pair c0 a b = true -> expected = flipped a b c0 ->
    (forall j, lv - cs <= j <= lv -> carries qsos j c0) ->
    match trace_loop self qsos a b n i expected alts cs lv with
    | Done (lv', _) =>
        forall k, i <= k <= lv' ->
                  exists m c,
                    lv - cs <= m <= k /\
                    k - Z.max 0 (max_consecutive_same self) <= m /\
                    (m = lv - cs \/
                     exists c1, carries qsos (m - 1) c1 /\ c1 <> c) /\
                    forall j, m <= j <= k -> carries qsos j c
    | Raise _ => False
    end.
Proof.
  induction n as [| n IH];
    intros i expected alts cs lv c0 Hi Hn Hcs Hlv Hc0 Hexp Hrun.
  - simpl. intros k Hk. lia.
  - cbn [trace_loop].
    destruct (getitem_in_range qsos i) as [q Eq]; [lia |].
    rewrite Eq. cbn [bind].
    destruct (in_pair (tx_county q) a b) eqn:Hin; cbn [negb];
      [| intros k Hk; lia].
    destruct (String.eqb_spec (tx_county q) expected) as [Hmatch | Hnoise].
    + (* an alternation: the county changes at [i] *)
      assert (Hturn : exists c1, carries qsos (i - 1) c1 /\
                                 c1 <> tx_county q).
      { exists c0. split; [apply Hrun; lia |].
        rewrite Hmatch, Hexp. intros Heq. symmetry in Heq.
        now apply flipped_differs in Heq. }
      specialize (IH (i + 1) (flipped a b expected) (alts + 1) 0 i
                     (tx_county q)
                     ltac:(lia) ltac:(lia) ltac:(lia) ltac:(lia) Hin
                     ltac:(now rewrite Hmatch)).
      assert (Hhere : forall j, i - 0 <= j <= i -> carries qsos j (tx_county q)).
      { intros j Hj. replace j with i by lia. now exists q. }
      specialize (IH Hhere).
      fold (flipped a b expected).
      destruct (trace_loop self qsos a b n (i + 1) _ _ _ _)
        as [[lv' alts'] | e]; [| assumption].
      intros k Hk. destruct (Z.eq_dec k i) as [-> | Hne].
      * exists i, (tx_county q).
        split; [lia |]. split; [lia |]. split; [now right |].
        intros j Hj. replace j with i by lia. now exists q.
      * destruct (IH k ltac:(lia)) as (m & c & Hm & Hnear & Hm_turn & Hm_run).
        exists m, c.
        split; [lia |]. split; [lia |]. split; [| assumption].
        destruct Hm_turn as [-> | Hm_turn]; [| now right].
        right. replace (i - 0) with i in * by lia.
        destruct (Hm_run i ltac:(lia)) as (q' & Eq' & Hq').
        rewrite Eq in Eq'. injection Eq' as <-. now rewrite <- Hq'.
    + (* a repeat of the county of the last alternation *)
      assert (Hrep : tx_county q = c0).
      { apply (noise_repeats a b); try assumption. now rewrite <- Hexp. }
      destruct (Z.gtb_spec (cs + 1) (max_consecutive_same self)).
      * intros k Hk. lia.
      * specialize (IH (i + 1) expected alts (cs + 1) i c0
                       ltac:(lia) ltac:(lia) ltac:(lia) ltac:(lia) Hc0 Hexp).
        assert (Hrun' : forall j, i - (cs + 1) <= j <= i -> carries qsos j c0).
        { intros j Hj. destruct (Z.eq_dec j i) as [-> | Hne].
          - now exists q.
          - apply Hrun. lia. }
        specialize (IH Hrun').
        destruct (trace_loop self qsos a b n (i + 1) _ _ _ _)
          as [[lv' alts'] | e]; [| assumption].
        intros k Hk. destruct (Z.eq_dec k i) as [-> | Hne].
        -- exists (lv - cs), c0.
           split; [lia |]. split; [lia |]. split; [now left |].
           intros j Hj. apply Hrun'. lia.
        -- destruct (IH k ltac:(lia)) as (m & c & Hm & Hnear & Hm_turn & Hm_run).
           exists m, c.
           split; [lia |]. split; [lia |]. split; [| assumption].
           destruct Hm_turn as [-> | Hm_turn]; [left; lia | now right].
Qed.

Lemma trace_pattern_runs (self : Settings) (start : Z) (q : R) :
  0 <= start ->
  getitem qsos start = Done q ->
  in_pair (tx_county q) a b = true ->
  match _trace_pattern self qsos start a b with
  | Done (lv', _) =>
      forall k, start <= k <= lv' ->
                exists m c,
                  start <= m <= k /\
                  k - Z.max 0 (max_consecutive_same self) <= m /\
                  (m = start \/
                   exists c1, carries qsos (m - 1) c1 /\ c1 <> c) /\
                  forall j, m <= j <= k -> carries qsos j c
  | Raise _ => False
  end.
Proof.
  intros Hs Eq Hin. rewrite (trace_pattern_first qsos a b self start q)
    by assumption.
  pose proof (getitem_Done_range qsos start q Hs Eq) as Hlt.
  assert (Hhere : forall j, start - 0 <= j <= start ->
                            carries qsos j (tx_county q)).
  { intros j Hj. replace j with start by lia. now exists q. }
  pose proof (trace_loop_runs
                self (Z.to_nat (len qsos - start) - 1) (start + 1)
                (flipped a b (tx_county q)) 1 0 start (tx_county q)
                ltac:(lia) ltac:(lia) ltac:(lia) ltac:(lia) Hin eq_refl Hhere)
    as Hruns.
  destruct (trace_loop self qsos a b _ _ _ _ _ _) as [[lv' alts'] | e];
    [| assumption].
  intros k Hk. destruct (Z.eq_dec k start) as [-> | Hne].
  - exists start, (tx_county q).
    split; [lia |]. split; [lia |]. split; [now left |].
    intros j Hj. replace j with start by lia. now exists q.
  - destruct (Hruns k ltac:(lia)) as (m & c & Hm & Hnear & Hturn & Hrun).
    exists m, c.
    split; [lia |]. split; [lia |]. split; [| assumption].
    destruct Hturn as [-> | Hturn]; [left; lia | now right].
Qed.

End TraceRuns.

(** X10: inside a period with at least one alternation no county is
    repeated more than [max_consecutive_same] times in a row.  Every
    record of the period lies at most [max_consecutive_same] records (none,
    when that is negative) after the period's start or after a record whose
    county differs from the one before it, and carries the same county as
    all the records in between. *)
Theorem period_repeats_bounded (self : Settings) (qsos : list QSORecord)
        (periods : list CountyLinePeriod) (p : CountyLinePeriod) (k : Z) :
  find_county_line_periods self qsos = Some (Done periods) ->
  In p periods ->
  1 <= alternations p ->
  start_idx p <= k <= end_idx p ->
  exists m c,
    start_idx p <= m <= k /\
    k - Z.max 0 (max_consecutive_same self) <= m /\
    (m = start_idx p \/ exists c1, carries qsos (m - 1) c1 /\ c1 <> c) /\
    forall j, m <= j <= k -> carries qsos j c.
Proof.
  intros E Hin Halts Hk.
  destruct (emitted_trace self qsos periods p E Hin Halts)
    as (Hs & Hne & Et & qs & Eqs & Hpair).
  pose proof (trace_pattern_runs qsos (county_a p) (county_b p) Hne self
                                 (start_idx p) qs Hs Eqs Hpair) as Hruns.
  rewrite Et in Hruns. exact (Hruns k Hk).
Qed.

Lemma period_repeats_bounded_witness :
  exists m c,
    4 <= m <= 6 /\ 6 - Z.max 0 2 <= m /\
    (m = 4 \/ exists c1, carries shared_county_log (m - 1) c1 /\ c1 <> c) /\
    forall j, m <= j <= 6 -> carries shared_county_log j c.
Proof.
  apply (period_repeats_bounded
           default_settings shared_county_log
           [period_over "A" "B" 0 3 4; period_over "B" "C" 4 9 4]
           (period_over "B" "C" 4 9 4) 6).
  - vm_compute. reflexivity.
  - right. left. reflexivity.
  - vm_compute. discriminate.
  - vm_compute. split; discriminate.
Defined.

End Further.
